(** * Morse-code quiz: progress gating, submission and leaderboard

    A shallow embedding of the logic of two React components:

    - [Competition] (src/pages/Competition.tsx): the progress computed on
      load, the gate [canAccessQuestion], the "Go Back" recovery of the
      locked screen and the submit handler [handleSubmit];
    - [Navbar] (the leaderboard loader [loadLeaderboard]): paginated read,
      per-user aggregation with de-duplication, ranking, retry.

    Conventions of the model.
    - A JS [number] that is an index, a count or a time is a [Z]. The score
      [(correct / 5) * 100] is computed in IEEE 754 double precision, with
      the operations of the Standard Library's [SpecFloat]; an entry holds
      the exact rational value ([Q]) of that double.
    - A JS string is a [string]: a sequence of code units below 256.
    - An object used as a dictionary is a [gmap string _] when only lookups
      matter ([answers]) and an insertion-ordered association list when
      [Object.entries] enumerates it ([userScores]); keys are database
      identifiers (UUIDs), never integer-like and never names of
      [Object.prototype].
    - React state is passed explicitly; the store, the clock and the
      identity provider are parameters of each handler; toasts, writes and
      timers are returned as a list of effects. An async handler is given
      twice: as one step on the state it is called in, and as a call in
      flight whose setters are applied later to the state of that time.
    - A JS exception is the [Throw] constructor of [completion]. *)

From Stdlib Require Import ZArith QArith List String Ascii Lia Lqa SpecFloat.
From Stdlib Require Import Sorting.Sorted Sorting.Permutation.
From Equations Require Import Equations.
From stdpp Require Import base option list gmap strings sorting.

Set Warnings "-clear-no-such-hyp".

Close Scope Q_scope.
Open Scope Z_scope.

(** ** Completions: a returned value or a thrown exception *)

Inductive completion (A : Type) : Type :=
| Return (v : A)
| Throw (message : string).
Arguments Return {A} v.
Arguments Throw {A} message.

#[global] Instance completion_ret : MRet completion := fun A v => Return v.

#[global] Instance completion_bind : MBind completion := fun A B k c =>
  match c with
  | Return v => k v
  | Throw m => Throw m
  end.

(** The value of [e1 && e2.field] when [e1] may be [undefined]. *)
Inductive jsval : Type :=
| JBool (b : bool)
| JUndefined.

Definition truthy (v : jsval) : bool :=
  match v with
  | JBool b => b
  | JUndefined => false
  end.

(** [xs[i]] for an integer [i]: [undefined] ([None]) out of range. *)
Definition index {A} (xs : list A) (i : Z) : option A :=
  if i <? 0 then None else xs !! Z.to_nat i.

(** [String.prototype.trim]: white space and line terminators among the
    code units below 256 are TAB, LF, VT, FF, CR, SP and NBSP. *)
Definition is_white_space (c : ascii) : bool :=
  let n := nat_of_ascii c in
  ((9 <=? n)%nat && (n <=? 13)%nat) || (n =? 32)%nat || (n =? 160)%nat.

Fixpoint trimStart (s : string) : string :=
  match s with
  | EmptyString => EmptyString
  | String c s' => if is_white_space c then trimStart s' else s
  end.

Fixpoint trimEnd (s : string) : string :=
  match s with
  | EmptyString => EmptyString
  | String c s' =>
      match trimEnd s' with
      | EmptyString => if is_white_space c then EmptyString else String c EmptyString
      | t => String c t
      end
  end.

Definition trim (s : string) : string := trimEnd (trimStart s).

(** [[...new Set(xs)]]: the distinct elements in order of first occurrence. *)
Definition uniq (xs : list string) : list string :=
  foldl (fun seen x => if decide (x ∈ seen) then seen else seen ++ [x]) [] xs.

(** ** Competition.tsx *)

Module Competition.

Record Question : Type := {
  id : string;
  question_number : Z;
  question_text : string;
  correct_answer : string
}.

(** A row of [user_answers] as selected on load; [answered_at] is the
    time stamp already converted by [new Date(_).getTime()]. *)
Record UserAnswer : Type := {
  question_id : string;
  user_answer : string;
  is_correct : bool;
  answered_at : Z
}.

Record Outcome : Type := {
  answer : string;
  isCorrect : bool;
  timestamp : Z
}.

Record UserProgress : Type := {
  progressIndex : Z;                 (* userProgress.currentQuestionIndex *)
  answers : gmap string Outcome;
  completedQuestions : list string
}.

Record State : Type := {
  questions : list Question;
  currentQuestionIndex : Z;
  morseInput : string;
  questionStartTime : option Z;      (* Date | null, in milliseconds *)
  userProgress : UserProgress;
  loading : bool
}.

Definition initialState : State := {|
  questions := [];
  currentQuestionIndex := 0;
  morseInput := "";
  questionStartTime := None;
  userProgress := {| progressIndex := 0; answers := ∅; completedQuestions := [] |};
  loading := true
|}.

(** *** Effects of the handlers *)

(** The record written by [upsert]. *)
Record AnswerRecord : Type := {
  r_user_id : string;
  r_question_id : string;
  r_user_answer : string;
  r_is_correct : bool;
  r_time_taken_seconds : Z;
  r_answered_at : Z
}.

Inductive Toast : Type :=
| LoadFailed             (* "Failed to load questions." *)
| EnterAnswer            (* "Please enter a morse code answer" *)
| SaveFailed             (* "Failed to save answer." *)
| Correct (n : Z)        (* "Question n completed. Moving to next question." *)
| Congratulations
| Incorrect.

Inductive Effect : Type :=
| ShowToast (t : Toast)
| Upsert (r : AnswerRecord)
| NavigateResultsAfter (ms : Z).

(** *** Progress on load (lines 45-101) *)

(** The body of [userAnswers.forEach]. *)
Definition recordAnswer (acc : gmap string Outcome * list string) (a : UserAnswer)
  : gmap string Outcome * list string :=
  let answers' :=
    <[question_id a := {| answer := user_answer a;
                          isCorrect := is_correct a;
                          timestamp := answered_at a |}]> (fst acc) in
  (answers', if is_correct a then snd acc ++ [question_id a] else snd acc).

(** [!questionAnswer || !questionAnswer.isCorrect] *)
Definition notAnsweredCorrectly (answers : gmap string Outcome) (q : Question) : bool :=
  match answers !! id q with
  | None => true
  | Some questionAnswer => negb (isCorrect questionAnswer)
  end.

(** The [for] loop of lines 76-86, entered at counter [i] with [n]
    iterations left and the current value of [currentQuestionIndex]. *)
Fixpoint scanQuestions (questionsData : list Question) (answers : gmap string Outcome)
    (n i : nat) (currentQuestionIndex : Z) : Z :=
  match n with
  | O => currentQuestionIndex
  | S n' =>
      match questionsData !! i with
      | None => currentQuestionIndex
      | Some q =>
          if notAnsweredCorrectly answers q then Z.of_nat i      (* break *)
          else
            let currentQuestionIndex' :=
              if Z.of_nat i =? Z.of_nat (length questionsData) - 1
              then Z.of_nat (length questionsData) - 1
              else currentQuestionIndex in
            scanQuestions questionsData answers n' (S i) currentQuestionIndex'
      end
  end.

Definition findCurrentQuestionIndex (questionsData : list Question)
    (answers : gmap string Outcome) : Z :=
  scanQuestions questionsData answers (length questionsData) 0 0.

(** The progress stored by [setUserProgress] on load; [userAnswers] is
    the [data] of the query, which may be [null]. *)
Definition computeProgress (questionsData : list Question)
    (userAnswers : option (list UserAnswer)) : UserProgress :=
  match userAnswers with
  | None => {| progressIndex := 0; answers := ∅; completedQuestions := [] |}
  | Some rows =>
      let acc := foldl recordAnswer (∅, []) rows in
      {| progressIndex := findCurrentQuestionIndex questionsData (fst acc);
         answers := fst acc;
         completedQuestions := snd acc |}
  end.

(** The answer of the store to a query: [{ data, error }] with [error]
    set, or [data], which may be [null]. *)
Inductive Response (A : Type) : Type :=
| Data (data : option A)
| Failure.
Arguments Data {A} data.
Arguments Failure {A}.

(** [fetchQuestionsAndProgress], given the answers of the two queries and
    the reading [now] of [new Date()]. *)
Definition fetchQuestionsAndProgress (questionsResponse : Response (list Question))
    (answersResponse : Response (list UserAnswer)) (now : Z) (st : State)
  : State * list Effect :=
  let failed :=
    ({| questions := questions st;
        currentQuestionIndex := currentQuestionIndex st;
        morseInput := morseInput st;
        questionStartTime := questionStartTime st;
        userProgress := userProgress st;
        loading := false |}, [ShowToast LoadFailed]) in
  match questionsResponse, answersResponse with
  | Data (Some questionsData), Data userAnswers =>
      let progress := computeProgress questionsData userAnswers in
      ({| questions := questionsData;
          currentQuestionIndex := progressIndex progress;
          morseInput := morseInput st;
          questionStartTime := Some now;
          userProgress := progress;
          loading := false |}, [])
  | _, _ => failed
  end.

(** *** The gate (lines 105-111) *)

Definition canAccessQuestion (st : State) (questionIndex : Z) : completion jsval :=
  if questionIndex =? 0 then Return (JBool true)
  else if (length (questions st) =? 0)%nat then Return (JBool false)
  else
    match index (questions st) (questionIndex - 1) with
    | None => Throw "TypeError"          (* undefined.id *)
    | Some previousQuestion =>
        match answers (userProgress st) !! id previousQuestion with
        | None => Return JUndefined
        | Some previousAnswer => Return (JBool (isCorrect previousAnswer))
        end
    end.

(** The render test [!canAccessQuestion(currentQuestionIndex)] that
    shows the locked screen (line 187). *)
Definition locked (st : State) : bool :=
  match canAccessQuestion st (currentQuestionIndex st) with
  | Return v => negb (truthy v)
  | Throw _ => false
  end.

(** The "Go Back" button of the locked screen (lines 199-202). *)
Definition goBack (st : State) : State :=
  let lastAccessibleIndex := Z.max 0 (currentQuestionIndex st - 1) in
  {| questions := questions st;
     currentQuestionIndex := lastAccessibleIndex;
     morseInput := morseInput st;
     questionStartTime := questionStartTime st;
     userProgress := userProgress st;
     loading := loading st |}.

(** *** Input buttons (lines 113-115) *)

Definition addDot (st : State) : State :=
  {| questions := questions st;
     currentQuestionIndex := currentQuestionIndex st;
     morseInput := morseInput st +:+ ".";
     questionStartTime := questionStartTime st;
     userProgress := userProgress st;
     loading := loading st |}.

Definition addDash (st : State) : State :=
  {| questions := questions st;
     currentQuestionIndex := currentQuestionIndex st;
     morseInput := morseInput st +:+ "-";
     questionStartTime := questionStartTime st;
     userProgress := userProgress st;
     loading := loading st |}.

(** [prev.slice(0, -1)] *)
Fixpoint dropLast (s : string) : string :=
  match s with
  | EmptyString => EmptyString
  | String c s' =>
      match s' with
      | EmptyString => EmptyString
      | String _ _ => String c (dropLast s')
      end
  end.

Definition backspaceInput (st : State) : State :=
  {| questions := questions st;
     currentQuestionIndex := currentQuestionIndex st;
     morseInput := dropLast (morseInput st);
     questionStartTime := questionStartTime st;
     userProgress := userProgress st;
     loading := loading st |}.

(** *** Submit (lines 117-174) *)

(** What one call of [handleSubmit] reads from outside the component:
    the signed-in user, three readings of the clock and whether the
    write is reported as failed. *)
Record Env : Type := {
  user : option string;
  endTime : Z;
  answeredAt : Z;
  restartTime : Z;
  upsertFails : bool
}.

(** Line 128. *)
Definition checkAnswer (morseInput : string) (currentQuestion : Question) : bool :=
  String.eqb (trim morseInput) (correct_answer currentQuestion).

(** One call of [handleSubmit] run to its end on the values [st] of the
    render in which it is made: the effects it has, and [st] as its
    setters leave it when nothing else happens before the write
    completes. *)
Definition handleSubmit (env : Env) (st : State) : completion (State * list Effect) :=
  if String.eqb (trim (morseInput st)) "" then
    Return (st, [ShowToast EnterAnswer])
  else
    match questionStartTime st, user env with
    | Some startTime, Some userId =>
        if (length (questions st) =? 0)%nat then Return (st, [])
        else
          match index (questions st) (currentQuestionIndex st) with
          | None => Throw "TypeError"    (* currentQuestion.correct_answer *)
          | Some currentQuestion =>
              let timeTakenSeconds := (endTime env - startTime) / 1000 in
              let isCorrect := checkAnswer (morseInput st) currentQuestion in
              let write := Upsert {|
                r_user_id := userId;
                r_question_id := id currentQuestion;
                r_user_answer := trim (morseInput st);
                r_is_correct := isCorrect;
                r_time_taken_seconds := timeTakenSeconds;
                r_answered_at := answeredAt env |} in
              if upsertFails env then
                Return (st, [write; ShowToast SaveFailed])
              else
                let progress := userProgress st in
                let answers' :=
                  <[id currentQuestion :=
                      {| answer := trim (morseInput st);
                         isCorrect := isCorrect;
                         timestamp := endTime env |}]> (answers progress) in
                if isCorrect then
                  let completed' := uniq (completedQuestions progress ++ [id currentQuestion]) in
                  if currentQuestionIndex st <? Z.of_nat (length (questions st)) - 1 then
                    Return
                      ({| questions := questions st;
                          currentQuestionIndex := currentQuestionIndex st + 1;
                          morseInput := "";
                          questionStartTime := Some (restartTime env);
                          userProgress :=
                            {| progressIndex := currentQuestionIndex st + 1;
                               answers := answers';
                               completedQuestions := completed' |};
                          loading := loading st |},
                       [write; ShowToast (Correct (currentQuestionIndex st + 1))])
                  else
                    Return
                      ({| questions := questions st;
                          currentQuestionIndex := currentQuestionIndex st;
                          morseInput := morseInput st;
                          questionStartTime := questionStartTime st;
                          userProgress :=
                            {| progressIndex := progressIndex progress;
                               answers := answers';
                               completedQuestions := completed' |};
                          loading := loading st |},
                       [write; ShowToast Congratulations; NavigateResultsAfter 1500])
                else
                  Return
                    ({| questions := questions st;
                        currentQuestionIndex := currentQuestionIndex st;
                        morseInput := morseInput st;
                        questionStartTime := questionStartTime st;
                        userProgress :=
                          {| progressIndex := progressIndex progress;
                             answers := answers';
                             completedQuestions := completedQuestions progress |};
                        loading := loading st |},
                     [write; ShowToast Incorrect])
          end
    | _, _ => Return (st, [])
    end.

(** The writes issued by a call, and the [is_correct] flag they carry. *)
Definition writes (effects : list Effect) : list AnswerRecord :=
  omap (fun e => match e with Upsert r => Some r | _ => None end) effects.

(** *** Vocabulary of the specification *)

(** The recorded outcome of a question is correct. *)
Definition hasCorrectOutcome (answers : gmap string Outcome) (q : Question) : Prop :=
  exists o, answers !! id q = Some o /\ isCorrect o = true.

(** A question has no recorded outcome, or an incorrect one. *)
Definition lacksCorrectOutcome (answers : gmap string Outcome) (q : Question) : Prop :=
  answers !! id q = None \/ exists o, answers !! id q = Some o /\ isCorrect o = false.

(** The keys of the input pad, and the buffer they produce. *)
Inductive Key : Type := Dot | Dash | Backspace.

Definition press (st : State) (k : Key) : State :=
  match k with
  | Dot => addDot st
  | Dash => addDash st
  | Backspace => backspaceInput st
  end.

(** A string of dots and dashes. *)
Fixpoint morse (s : string) : bool :=
  match s with
  | EmptyString => true
  | String c s' => (Ascii.eqb c "." || Ascii.eqb c "-") && morse s'
  end.

(** *** Sample data *)

Definition question (n : Z) (ident code : string) : Question :=
  {| id := ident; question_number := n; question_text := "?"; correct_answer := code |}.

Definition fourQuestions : list Question :=
  [question 1 "q1" ".-"; question 2 "q2" "-..."; question 3 "q3" "-.-."; question 4 "q4" "-.."].

Definition session (qs : list Question) (i : Z) (input : string)
    (answers : gmap string Outcome) : State :=
  {| questions := qs;
     currentQuestionIndex := i;
     morseInput := input;
     questionStartTime := Some 1000;
     userProgress := {| progressIndex := i; answers := answers; completedQuestions := [] |};
     loading := false |}.

Definition sampleEnv (fails : bool) : Env :=
  {| user := Some "u1"; endTime := 8500; answeredAt := 8501; restartTime := 8502;
     upsertFails := fails |}.

(** Only the first question is answered, correctly. *)
Definition oneCorrect : gmap string Outcome :=
  {[ "q1" := {| answer := ".-"; isCorrect := true; timestamp := 7 |} ]}.

(** The first question, with a space typed after the right code. *)
Definition paddedInput : State := session fourQuestions 0 ".- " ∅.

(** *** What is rendered (lines 176-217 and 339) *)

Inductive View : Type :=
| LoadingScreen
| LockedScreen
| Blank                                     (* return null *)
| QuestionScreen (currentQuestion : Question).

(** The branch of the component body that is taken. *)
Definition render (st : State) : completion View :=
  if loading st then Return LoadingScreen
  else
    accessible ← canAccessQuestion st (currentQuestionIndex st);
    if negb (truthy accessible) then Return LockedScreen
    else if (length (questions st) =? 0)%nat then Return Blank
    else
      match index (questions st) (currentQuestionIndex st) with
      | None => Throw "TypeError"            (* currentQuestion.id *)
      | Some currentQuestion => Return (QuestionScreen currentQuestion)
      end.

(** The [disabled] attribute of the submit button (line 339). *)
Definition submitDisabled (st : State) (currentQuestion : Question) : bool :=
  String.eqb (morseInput st) ""
  || (match answers (userProgress st) !! id currentQuestion with
      | Some currentAnswer => isCorrect currentAnswer
      | None => false
      end
      && (currentQuestionIndex st =? Z.of_nat (length (questions st)) - 1)).

(** *** Calls of the handlers *)

Inductive Action : Type :=
| Press (k : Key)
| Submit (env : Env)
| GoBack.

(** The state after one call that runs to its end before anything else
    happens: for [Submit], the write completes and the rest of
    [handleSubmit] sets the state the handler was called in. A handler
    that throws sets no state. Calls of [handleSubmit] that overlap are
    the events of a [Session], below. *)
Definition act (st : State) (a : Action) : State :=
  match a with
  | Press k => press st k
  | Submit env =>
      match handleSubmit env st with
      | Return (st', _) => st'
      | Throw _ => st
      end
  | GoBack => goBack st
  end.

(** The outcome stored for a row of [user_answers]. *)
Definition outcomeOf (a : UserAnswer) : Outcome :=
  {| answer := user_answer a; isCorrect := is_correct a; timestamp := answered_at a |}.

(** The current index is in range and every question before it has a
    correct outcome; with no question the index is 0. *)
Definition gated (st : State) : Prop :=
  (questions st = [] /\ currentQuestionIndex st = 0)
  \/ (0 <= currentQuestionIndex st < Z.of_nat (length (questions st))
      /\ forall (j : nat) (q : Question),
           Z.of_nat j < currentQuestionIndex st ->
           questions st !! j = Some q ->
           hasCorrectOutcome (answers (userProgress st)) q).

(** *** Calls of [handleSubmit] in flight (lines 131-173)

    [handleSubmit] is [async]. A call runs up to the [await] of the write
    (line 132) and gives the control back; the page stays as it is, and
    its buttons work, until the write completes. The rest of the body
    then runs with the values of the render in which the call was made,
    whatever the state has become, and calls these setters. *)

Inductive Setter : Type :=
| SetCurrentQuestionIndex (questionIndex : Z)
| SetMorseInput (input : string)
| SetQuestionStartTime (now : Z)
| SetUserProgress (progress : UserProgress).

Definition applySetter (st : State) (s : Setter) : State :=
  match s with
  | SetCurrentQuestionIndex questionIndex =>
      {| questions := questions st;
         currentQuestionIndex := questionIndex;
         morseInput := morseInput st;
         questionStartTime := questionStartTime st;
         userProgress := userProgress st;
         loading := loading st |}
  | SetMorseInput input =>
      {| questions := questions st;
         currentQuestionIndex := currentQuestionIndex st;
         morseInput := input;
         questionStartTime := questionStartTime st;
         userProgress := userProgress st;
         loading := loading st |}
  | SetQuestionStartTime now =>
      {| questions := questions st;
         currentQuestionIndex := currentQuestionIndex st;
         morseInput := morseInput st;
         questionStartTime := Some now;
         userProgress := userProgress st;
         loading := loading st |}
  | SetUserProgress progress =>
      {| questions := questions st;
         currentQuestionIndex := currentQuestionIndex st;
         morseInput := morseInput st;
         questionStartTime := questionStartTime st;
         userProgress := progress;
         loading := loading st |}
  end.

(** The setters called by a call of [handleSubmit] once its write has
    completed (lines 140-173), in the order of the calls; [captured]
    holds the values of the render in which the call was made. A call
    that returned or threw before the write, or whose write failed,
    calls none. *)
Definition settersAfterWrite (env : Env) (captured : State) : list Setter :=
  if String.eqb (trim (morseInput captured)) "" then []
  else
    match questionStartTime captured, user env with
    | Some _, Some _ =>
        if (length (questions captured) =? 0)%nat then []
        else
          match index (questions captured) (currentQuestionIndex captured) with
          | None => []
          | Some currentQuestion =>
              if upsertFails env then []
              else
                let progress := userProgress captured in
                let isCorrect := checkAnswer (morseInput captured) currentQuestion in
                let answers' :=
                  <[id currentQuestion :=
                      {| answer := trim (morseInput captured);
                         isCorrect := isCorrect;
                         timestamp := endTime env |}]> (answers progress) in
                if isCorrect then
                  let completed' := uniq (completedQuestions progress ++ [id currentQuestion]) in
                  if currentQuestionIndex captured <? Z.of_nat (length (questions captured)) - 1
                  then
                    [SetCurrentQuestionIndex (currentQuestionIndex captured + 1);
                     SetMorseInput "";
                     SetQuestionStartTime (restartTime env);
                     SetUserProgress
                       {| progressIndex := currentQuestionIndex captured + 1;
                          answers := answers';
                          completedQuestions := completed' |}]
                  else
                    [SetUserProgress
                       {| progressIndex := progressIndex progress;
                          answers := answers';
                          completedQuestions := completed' |}]
                else
                  [SetUserProgress
                     {| progressIndex := progressIndex progress;
                        answers := answers';
                        completedQuestions := completedQuestions progress |}]
          end
    | _, _ => []
    end.

(** The component between two events: its state, and the calls of
    [handleSubmit] that await their write, oldest first, each with the
    values it captured. *)
Record Session : Type := {
  current : State;
  inFlight : list (Env * State)
}.

Definition start (st : State) : Session := {| current := st; inFlight := [] |}.

Inductive Event : Type :=
| Tap (k : Key)            (* a key of the input pad *)
| Click (env : Env)        (* the submit button *)
| Settle (n : nat)         (* the write of the n-th call in flight completes *)
| Back.                    (* "Go Back" on the locked screen *)

(** One event. A button acts only while the screen that holds it is
    rendered, and the submit button only while it is not disabled. *)
Definition occur (s : Session) (e : Event) : Session :=
  match e with
  | Tap k =>
      match render (current s) with
      | Return (QuestionScreen _) =>
          {| current := press (current s) k; inFlight := inFlight s |}
      | _ => s
      end
  | Click env =>
      match render (current s) with
      | Return (QuestionScreen currentQuestion) =>
          if submitDisabled (current s) currentQuestion then s
          else {| current := current s; inFlight := inFlight s ++ [(env, current s)] |}
      | _ => s
      end
  | Settle n =>
      match inFlight s !! n with
      | Some (env, captured) =>
          {| current := foldl applySetter (current s) (settersAfterWrite env captured);
             inFlight := delete n (inFlight s) |}
      | None => s
      end
  | Back =>
      match render (current s) with
      | Return LockedScreen => {| current := goBack (current s); inFlight := inFlight s |}
      | _ => s
      end
  end.

(** A call that runs to its end before the next one. *)
Definition eventsOf (a : Action) : list Event :=
  match a with
  | Press k => [Tap k]
  | Submit env => [Click env; Settle 0]
  | GoBack => [Back]
  end.

(** The sessions of a component mounted in its initial state: the load,
    then any events. *)
Definition reachable (s : Session) : Prop :=
  exists (questionsResponse : Response (list Question))
         (answersResponse : Response (list UserAnswer)) (now : Z) (events : list Event),
    s = foldl occur
          (start (fst (fetchQuestionsAndProgress questionsResponse answersResponse now
                         initialState)))
          events.

(** Four questions, none answered yet. *)
Definition freshSession : Session :=
  start (fst (fetchQuestionsAndProgress (Data (Some fourQuestions)) (Data (Some [])) 1000
                initialState)).

(** The code of the first question typed on the pad. *)
Definition typedAnswer : Session := foldl occur freshSession [Tap Dot; Tap Dash].

(** A wrong answer to the first question is submitted and its write is
    slow; meanwhile the right answers to the first and to the second
    question are submitted and written; then the first write completes. *)
Definition staleSubmission : list Event :=
  [Tap Dot; Click (sampleEnv false);
   Tap Dash; Click (sampleEnv false); Settle 1;
   Tap Dash; Tap Dot; Tap Dot; Tap Dot; Click (sampleEnv false); Settle 1;
   Settle 0].

Definition afterStaleSubmission : Session := foldl occur freshSession staleSubmission.




End Competition.

(** ** The leaderboard loader of the navigation bar *)

Module Navbar.

Record LeaderboardEntry : Type := {
  rank : Z;
  display_name : string;
  total_score : Q;
  total_time : Z
}.

(** The joined [profiles!inner(display_name)] object; the column may be
    [null]. *)
Record Profile : Type := {
  profile_display_name : option string
}.

(** A row of the leaderboard query. The rows are typed [any]: the joined
    object may be missing. *)
Record AnswerRow : Type := {
  user_id : string;
  is_correct : bool;
  time_taken_seconds : Z;
  question_id : string;
  profiles : option Profile
}.

Record UserData : Type := {
  name : string;
  correct : Z;
  totalTime : Z;
  questionIds : gset string
}.

Record State : Type := {
  leaderboard : list LeaderboardEntry;
  isLeaderboardLoading : bool;
  leaderboardError : option string
}.

Inductive Effect : Type :=
| SetTimeout (delay : Z).          (* milliseconds *)

(** *** Paginated read (lines 68-107) *)

Definition PAGE_SIZE : nat := 100.

(** The answer of the store to one [range] request: an error (reported
    or thrown), or [data], which may be [null]. *)
Inductive Batch : Type :=
| BatchError
| BatchData (data : option (list AnswerRow)).

(** The [while (hasMoreData)] loop, entered with the values of [page]
    and [allAnswers]; [fetch from to] is the request
    [.range(from, to)]. The loop has no bound of its own: [fuel] counts
    the iterations allowed, [None] is "still running". *)
Fixpoint fetchAll (fetch : nat -> nat -> Batch) (fuel page : nat)
    (allAnswers : list AnswerRow) : option (list AnswerRow) :=
  match fuel with
  | O => None
  | S fuel' =>
      match fetch (page * PAGE_SIZE)%nat ((page + 1) * PAGE_SIZE - 1)%nat with
      | BatchError => Some allAnswers                  (* inner catch *)
      | BatchData None => Some allAnswers
      | BatchData (Some data) =>
          if (0 <? length data)%nat then
            let allAnswers' := allAnswers ++ data in
            if (length data <? PAGE_SIZE)%nat then Some allAnswers'
            else fetchAll fetch fuel' (S page) allAnswers'
          else Some allAnswers
      end
  end.

(** *** Aggregation (lines 110-129) *)

(** [userScores[userId]] on an insertion-ordered dictionary. *)
Fixpoint get (userScores : list (string * UserData)) (userId : string) : option UserData :=
  match userScores with
  | [] => None
  | (k, v) :: rest => if String.eqb k userId then Some v else get rest userId
  end.

(** [userScores[userId] = v]: an existing key keeps its place, a new one
    goes last. *)
Fixpoint set (userScores : list (string * UserData)) (userId : string) (v : UserData)
  : list (string * UserData) :=
  match userScores with
  | [] => [(userId, v)]
  | (k, v0) :: rest =>
      if String.eqb k userId then (k, v) :: rest
      else (k, v0) :: set rest userId v
  end.

(** [display_name || "Anonymous"] *)
Definition orAnonymous (display_name : option string) : string :=
  match display_name with
  | Some s => if String.eqb s "" then "Anonymous" else s
  | None => "Anonymous"
  end.

(** The body of [allAnswers.forEach]. *)
Definition countAnswer (userScores : list (string * UserData)) (answer : AnswerRow)
  : completion (list (string * UserData)) :=
  let userId := user_id answer in
  userScores1 ←
    match get userScores userId with
    | Some _ => Return userScores
    | None =>
        match profiles answer with
        | None => Throw "TypeError"      (* answer.profiles.display_name *)
        | Some p =>
            Return (set userScores userId
                      {| name := orAnonymous (profile_display_name p);
                         correct := 0;
                         totalTime := 0;
                         questionIds := ∅ |})
        end
    end;
  match get userScores1 userId with
  | None => Throw "TypeError"
  | Some d =>
      if decide (question_id answer ∈ questionIds d) then Return userScores1
      else
        Return (set userScores1 userId
                  {| name := name d;
                     correct := correct d + 1;
                     totalTime := totalTime d + time_taken_seconds answer;
                     questionIds := {[question_id answer]} ∪ questionIds d |})
  end.

Fixpoint forEach (allAnswers : list AnswerRow) (userScores : list (string * UserData))
  : completion (list (string * UserData)) :=
  match allAnswers with
  | [] => Return userScores
  | answer :: rest =>
      userScores' ← countAnswer userScores answer;
      forEach rest userScores'
  end.

Definition aggregate (allAnswers : list AnswerRow) : completion (list (string * UserData)) :=
  forEach allAnswers [].

(** *** Ranking (lines 131-145) *)

(** An entry before its rank is assigned. *)
Record ScoreEntry : Type := {
  entry_display_name : string;
  entry_total_score : Q;
  entry_total_time : Z
}.

(** Double precision: 53 bits of mantissa, exponents below 1024. *)
Definition double_prec : Z := 53.
Definition double_emax : Z := 1024.

(** The double of an integer literal or count. *)
Definition double (n : Z) : spec_float :=
  binary_normalize double_prec double_emax n 0 false.

(** The rational a finite double stands for. *)
Definition valueOf (x : spec_float) : Q :=
  match x with
  | S754_finite negative m e =>
      let magnitude :=
        match e with
        | Zneg p => (Zpos m # 2 ^ p)%Q
        | _ => inject_Z (Zpos m * 2 ^ e)
        end in
      if negative then Qopp magnitude else magnitude
  | _ => 0%Q
  end.

(** [(userData.correct / 5) * 100], each operation rounded to a double. *)
Definition scoreOf (correct : Z) : spec_float :=
  SFmul double_prec double_emax
    (SFdiv double_prec double_emax (double correct) (double 5))    (* 5 total questions *)
    (double 100).

Definition toEntry (kv : string * UserData) : ScoreEntry :=
  let userData := snd kv in
  {| entry_display_name := name userData;
     entry_total_score := valueOf (scoreOf (correct userData));
     entry_total_time := totalTime userData |}.

(** The comparator passed to [sort]: the exact difference of the two
    doubles, which has the sign of their rounded difference. *)
Definition compareEntries (a b : ScoreEntry) : Q :=
  if negb (Qeq_bool (entry_total_score b) (entry_total_score a))
  then (entry_total_score b - entry_total_score a)%Q
  else inject_Z (entry_total_time a - entry_total_time b).

(** [Array.prototype.sort] is a stable sort by the comparator: [x] goes
    before the first element it does not have to follow. *)
Fixpoint insertSorted {A} (compare : A -> A -> Q) (x : A) (sorted : list A) : list A :=
  match sorted with
  | [] => [x]
  | y :: rest =>
      if Qle_bool (compare x y) 0 then x :: sorted
      else y :: insertSorted compare x rest
  end.

Definition sort {A} (compare : A -> A -> Q) (xs : list A) : list A :=
  foldr (insertSorted compare) [] xs.

Definition withRank (index : nat) (entry : ScoreEntry) : LeaderboardEntry :=
  {| rank := Z.of_nat index + 1;
     display_name := entry_display_name entry;
     total_score := entry_total_score entry;
     total_time := entry_total_time entry |}.

Definition leaderboardData (userScores : list (string * UserData)) : list LeaderboardEntry :=
  imap withRank (take 10 (sort compareEntries (map toEntry userScores))).

(** *** One call and its retries (lines 61-164) *)

(** The [try] block: [None] while the read is still running,
    [Some (Throw _)] when control reaches the outer [catch]. *)
Definition attempt (fetch : nat -> nat -> Batch) (fuel : nat)
  : option (completion (list LeaderboardEntry)) :=
  match fetchAll fetch fuel 0 [] with
  | None => None
  | Some allAnswers =>
      Some (userScores ← aggregate allAnswers; Return (leaderboardData userScores))
  end.

(** [error?.message || "Failed to load leaderboard data"] *)
Definition errorMessage (message : string) : string :=
  if String.eqb message "" then "Failed to load leaderboard data" else message.

(** The [finally] block. *)
Definition finally (retryCount : nat) (st : State) : State :=
  if (retryCount =? 3)%nat
  then {| leaderboard := leaderboard st;
          isLeaderboardLoading := false;
          leaderboardError := leaderboardError st |}
  else st.

(** The two setters that open the [try] block. *)
Definition started (st : State) : State :=
  {| leaderboard := leaderboard st;
     isLeaderboardLoading := true;
     leaderboardError := None |}.

Definition succeeded (leaderboardData : list LeaderboardEntry) (st : State) : State :=
  {| leaderboard := leaderboardData;
     isLeaderboardLoading := isLeaderboardLoading st;
     leaderboardError := leaderboardError st |}.

Definition failed (message : string) (st : State) : State :=
  {| leaderboard := leaderboard st;
     isLeaderboardLoading := isLeaderboardLoading st;
     leaderboardError := Some (errorMessage message) |}.

(** [loadLeaderboard(retryCount)] followed by the calls its timers make.
    [store n] is the store as the call with [retryCount = n] finds it.
    The result is the state after the last call and the timers set, in
    order. The recursion is the one of the source: a further call only
    when [retryCount < 3]. *)
Equations loadLeaderboard (store : nat -> nat -> nat -> Batch) (fuel : nat)
    (retryCount : nat) (st : State) : option (State * list Effect)
    by wf (3 - retryCount)%nat lt :=
  loadLeaderboard store fuel retryCount st with attempt (store retryCount) fuel := {
    | None => None
    | Some (Return leaderboardData) =>
        Some (finally retryCount (succeeded leaderboardData (started st)), [])
    | Some (Throw message) with lt_dec retryCount 3 := {
        | left _ =>
            let delay := 2 ^ Z.of_nat retryCount * 1000 in
            match loadLeaderboard store fuel (retryCount + 1)
                    (finally retryCount (failed message (started st))) with
            | None => None
            | Some (st', effects) => Some (st', SetTimeout delay :: effects)
            end
        | right _ =>
            Some (finally retryCount (failed message (started st)), [])
      }
  }.
Next Obligation. lia. Qed.

(** *** Vocabulary of the specification *)

(** Two rows for the same user and question. *)
Definition sameKey (a b : AnswerRow) : Prop :=
  user_id a = user_id b /\ question_id a = question_id b.

#[global] Instance sameKey_dec (a b : AnswerRow) : Decision (sameKey a b).
Proof. unfold sameKey. apply _. Defined.

(** The rows of [log] that no row with the same user and question
    precedes, the rows of [earlier] coming before those of [log]. *)
Fixpoint firstRecordsAfter (earlier log : list AnswerRow) : list AnswerRow :=
  match log with
  | [] => []
  | a :: rest =>
      (if decide (Exists (sameKey a) earlier) then [] else [a])
        ++ firstRecordsAfter (earlier ++ [a]) rest
  end.

(** The first row, in scan order, of every (user, question) pair. *)
Definition firstRecords (log : list AnswerRow) : list AnswerRow :=
  firstRecordsAfter [] log.

Definition ofUser (userId : string) (rows : list AnswerRow) : list AnswerRow :=
  filter (fun a => user_id a = userId) rows.

(** The distinct questions of a user in a log. *)
Definition questionsOf (userId : string) (log : list AnswerRow) : gset string :=
  list_to_set (question_id <$> ofUser userId log).

Definition sumTimes (rows : list AnswerRow) : Z :=
  foldr (fun a total => time_taken_seconds a + total) 0 rows.


(** The order the ranking is claimed to follow: higher score first, and
    for equal scores the lower total time first. *)
Definition ranksBefore (a b : LeaderboardEntry) : Prop :=
  (total_score b < total_score a)%Q
  \/ ((total_score a == total_score b)%Q /\ total_time a <= total_time b).

(** The order on entries before ranking. *)
Definition entryBefore (a b : ScoreEntry) : Prop :=
  (entry_total_score b < entry_total_score a)%Q
  \/ ((entry_total_score a == entry_total_score b)%Q
      /\ entry_total_time a <= entry_total_time b).

(** [compare] puts [a] no later than [b]. *)
Definition inOrder {A} (compare : A -> A -> Q) (a b : A) : Prop :=
  (compare a b <= 0)%Q.

Definition sortedEntries (userScores : list (string * UserData)) : list ScoreEntry :=
  sort compareEntries (map toEntry userScores).

(** The data of a user seen for the first time, and the effect of one
    row on the data of its user. *)
Definition fresh (a : AnswerRow) (p : Profile) : UserData :=
  {| name := orAnonymous (profile_display_name p); correct := 0; totalTime := 0;
     questionIds := ∅ |}.

Definition counted (d : UserData) (a : AnswerRow) : UserData :=
  if decide (question_id a ∈ questionIds d) then d
  else {| name := name d;
          correct := correct d + 1;
          totalTime := totalTime d + time_taken_seconds a;
          questionIds := {[question_id a]} ∪ questionIds d |}.

(** What the scores hold once the rows of [log] are counted: one entry
    for every user of the log, with the number and the total time of the
    user's first records and the set of the user's questions. *)
Definition agrees (log : list AnswerRow) (acc : list (string * UserData)) : Prop :=
  NoDup acc.*1
  /\ forall u,
       match get acc u with
       | None => ofUser u log = []
       | Some d =>
           ofUser u log <> []
           /\ correct d = Z.of_nat (length (ofUser u (firstRecords log)))
           /\ totalTime d = sumTimes (ofUser u (firstRecords log))
           /\ questionIds d = questionsOf u log
       end.

(** The timers a call with [retryCount] may still set. *)
Definition backoff (retryCount : nat) : list Effect :=
  (fun k => SetTimeout (2 ^ Z.of_nat k * 1000)) <$> seq retryCount (3 - retryCount).

(** *** Sample data *)

Definition row (userId questionId : string) (seconds : Z) (displayName : string)
  : AnswerRow :=
  {| user_id := userId;
     is_correct := true;
     time_taken_seconds := seconds;
     question_id := questionId;
     profiles := Some {| profile_display_name := Some displayName |} |}.

Definition emptyState : State :=
  {| leaderboard := []; isLeaderboardLoading := false; leaderboardError := None |}.

(** One user, one correct answer. *)
Definition oneAnswer : list AnswerRow := [row "u1" "q1" 7 "Ann"].



(** The same question answered twice by the same user, in both orders. *)
Definition fastThenSlow : list AnswerRow :=
  [row "u1" "q1" 3 "Ann"; row "u2" "q1" 5 "Bob"; row "u1" "q1" 9 "Ann"].

Definition slowThenFast : list AnswerRow :=
  [row "u1" "q1" 9 "Ann"; row "u2" "q1" 5 "Bob"; row "u1" "q1" 3 "Ann"].

(** A store that cannot be reached: every request fails. *)
Definition unreachableStore : nat -> nat -> nat -> Batch :=
  fun _ _ _ => BatchError.

(** A store whose rows lack the joined profile on every call. *)
Definition brokenJoinStore : nat -> nat -> nat -> Batch :=
  fun _ from _ =>
    if (from =? 0)%nat
    then BatchData (Some [{| user_id := "u1"; is_correct := true;
                             time_taken_seconds := 7; question_id := "q1";
                             profiles := None |}])
    else BatchData (Some []).

(** *** More vocabulary *)

(** A store that serves a fixed table: [range(from, to)] is the slice of
    the rows from..to, both included. *)
Definition tableStore (rows : list AnswerRow) (from to : nat) : Batch :=
  BatchData (Some (take (to + 1 - from) (drop from rows))).

(** The first row of a user in a log. *)
Definition firstRowOf (userId : string) (log : list AnswerRow) : option AnswerRow :=
  head (ofUser userId log).

(** Neither of two elements has to follow the other. *)
Definition tied {A} (compare : A -> A -> Q) (a b : A) : Prop :=
  Qle_bool (compare a b) 0 = true /\ Qle_bool (compare b a) 0 = true.

#[global] Instance tied_dec {A} (compare : A -> A -> Q) (a b : A) :
  Decision (tied compare a b).
Proof. unfold tied. apply _. Defined.

(** A higher score, or the same score in less time. *)
Definition strictlyBetter (a b : LeaderboardEntry) : Prop :=
  (total_score b < total_score a)%Q
  \/ ((total_score a == total_score b)%Q /\ total_time a < total_time b).

(** The state a call that finds [data] at its attempt [n] leaves. *)
Definition loadedState (n : nat) (data : list LeaderboardEntry) : State :=
  {| leaderboard := data;
     isLeaderboardLoading := negb (n =? 3)%nat;
     leaderboardError := None |}.

(** Eleven users with one to eleven correct answers. *)
Definition elevenUsers : list (string * UserData) :=
  (fun n => (String (ascii_of_nat (97 + n)) EmptyString,
             {| name := "user"; correct := Z.of_nat n + 1; totalTime := 10;
                questionIds := ∅ |})) <$> seq 0 11.

End Navbar.

(** * Properties of the competition page *)

Module CompetitionProofs.
Import Competition.

(** ** The index computed on load *)

Lemma notAnsweredCorrectly_true answers q :
  notAnsweredCorrectly answers q = true <-> lacksCorrectOutcome answers q.
Proof.
  unfold notAnsweredCorrectly, lacksCorrectOutcome.
  destruct (answers !! id q) as [o|] eqn:E.
  - rewrite negb_true_iff. split.
    + intros H. right. exists o. auto.
    + intros [H | (o' & H & Ho)]; congruence.
  - split; auto.
Qed.

Lemma notAnsweredCorrectly_false answers q :
  notAnsweredCorrectly answers q = false <-> hasCorrectOutcome answers q.
Proof.
  unfold notAnsweredCorrectly, hasCorrectOutcome.
  destruct (answers !! id q) as [o|] eqn:E.
  - rewrite negb_false_iff. split.
    + intros H. exists o. auto.
    + intros (o' & H & Ho). congruence.
  - split; [discriminate | intros (o & H & _); discriminate].
Qed.

Lemma outcome_dichotomy answers q :
  hasCorrectOutcome answers q \/ lacksCorrectOutcome answers q.
Proof.
  destruct (notAnsweredCorrectly answers q) eqn:E.
  - right. by apply notAnsweredCorrectly_true.
  - left. by apply notAnsweredCorrectly_false.
Qed.

Section Scan.
Variable questionsData : list Question.
Variable answers : gmap string Outcome.

(** The loop stops at the first question without a correct outcome. *)
Lemma scanQuestions_break (n i : nat) (cur : Z) (k : nat) (q : Question) :
  (i <= k < i + n)%nat ->
  questionsData !! k = Some q ->
  notAnsweredCorrectly answers q = true ->
  (forall j q', (i <= j < k)%nat -> questionsData !! j = Some q' ->
                notAnsweredCorrectly answers q' = false) ->
  scanQuestions questionsData answers n i cur = Z.of_nat k.
Proof.
  revert i cur. induction n as [|n IH]; intros i cur Hk Hq Hbad Hgood.
  - lia.
  - simpl. destruct (decide (i = k)) as [->|Hne].
    + rewrite Hq, Hbad. reflexivity.
    + assert (is_Some (questionsData !! i)) as [qi Hqi].
      { apply lookup_lt_is_Some. apply lookup_lt_Some in Hq. lia. }
      rewrite Hqi, (Hgood i qi) by (auto; lia).
      apply IH; [lia | done | done |].
      intros j q' Hj. apply Hgood. lia.
Qed.

(** When no question stops it, the last iteration stores the last index. *)
Lemma scanQuestions_complete (n i : nat) (cur : Z) :
  (i + n = length questionsData)%nat ->
  (0 < n)%nat ->
  (forall j q', (i <= j)%nat -> questionsData !! j = Some q' ->
                notAnsweredCorrectly answers q' = false) ->
  scanQuestions questionsData answers n i cur = Z.of_nat (length questionsData) - 1.
Proof.
  revert i cur. induction n as [|n IH]; intros i cur Hlen Hn Hgood; [lia|].
  simpl. assert (is_Some (questionsData !! i)) as [qi Hqi].
  { apply lookup_lt_is_Some. lia. }
  rewrite Hqi, (Hgood i qi) by (auto; lia).
  destruct n as [|n].
  - simpl. rewrite (proj2 (Z.eqb_eq _ _)) by lia. reflexivity.
  - apply IH; [lia | lia |]. intros j q' Hj. apply Hgood. lia.
Qed.

End Scan.

Lemma findCurrentQuestionIndex_nil answers :
  findCurrentQuestionIndex [] answers = 0.
Proof. reflexivity. Qed.

(** [C1] The index computed on load. For every question list and every
    answer map: it is the index of the first question, in list order, that
    has no recorded outcome or an incorrect one; when every question has a
    correct outcome it is the index of the last question. The index the
    load stores, in the progress and in the component, is this one, also
    when the answer query yields no data. With no question at all the
    index is left at 0. *)
Theorem active_index_on_load (questionsData : list Question) :
  (forall answers : gmap string Outcome,
      (forall (i : nat) (q : Question),
          questionsData !! i = Some q ->
          lacksCorrectOutcome answers q ->
          (forall (j : nat) (q' : Question),
              (j < i)%nat -> questionsData !! j = Some q' -> hasCorrectOutcome answers q') ->
          findCurrentQuestionIndex questionsData answers = Z.of_nat i)
      /\ ((forall q, q ∈ questionsData -> hasCorrectOutcome answers q) ->
          forall qlast, last questionsData = Some qlast ->
            findCurrentQuestionIndex questionsData answers
              = Z.of_nat (length questionsData) - 1
            /\ index questionsData (findCurrentQuestionIndex questionsData answers)
              = Some qlast))
  /\ (forall (userAnswers : option (list UserAnswer)) (now : Z) (st : State),
        let progress := computeProgress questionsData userAnswers in
        let st' := fst (fetchQuestionsAndProgress (Data (Some questionsData))
                          (Data userAnswers) now st) in
        progressIndex progress = findCurrentQuestionIndex questionsData (answers progress)
        /\ currentQuestionIndex st' = progressIndex progress
        /\ userProgress st' = progress
        /\ questions st' = questionsData)
  /\ (forall answers, findCurrentQuestionIndex [] answers = 0).
Proof.
  split; [|split].
  - intros answers. split.
    + intros i q Hq Hbad Hgood. unfold findCurrentQuestionIndex.
      apply scanQuestions_break with (q := q).
      * apply lookup_lt_Some in Hq. lia.
      * done.
      * by apply notAnsweredCorrectly_true.
      * intros j q' Hj Hq'. apply notAnsweredCorrectly_false. apply (Hgood j); [lia | done].
    + intros Hall qlast Hlast.
      assert (questionsData <> []) as Hne by (intros ->; discriminate).
      assert (0 < length questionsData)%nat as Hlen.
      { destruct questionsData; [done | simpl; lia]. }
      assert (findCurrentQuestionIndex questionsData answers
              = Z.of_nat (length questionsData) - 1) as Heq.
      { unfold findCurrentQuestionIndex. apply scanQuestions_complete; [lia | lia |].
        intros j q' _ Hq'. apply notAnsweredCorrectly_false, Hall.
        by apply list_elem_of_lookup_2 in Hq'. }
      split; [done|]. rewrite Heq. unfold index.
      rewrite (proj2 (Z.ltb_ge _ _)) by lia.
      rewrite last_lookup in Hlast.
      replace (Z.to_nat (Z.of_nat (length questionsData) - 1))
        with (Nat.pred (length questionsData)) by lia.
      done.
  - intros userAnswers now st progress st'. subst progress st'.
    split; [|split; [|split]]; [|reflexivity..].
    destruct userAnswers as [rows|]; [reflexivity|].
    simpl. unfold findCurrentQuestionIndex.
    destruct questionsData as [|q qs]; [reflexivity|].
    simpl. unfold notAnsweredCorrectly. rewrite lookup_empty. reflexivity.
  - reflexivity.
Qed.

Lemma active_index_on_load_witness :
  findCurrentQuestionIndex fourQuestions oneCorrect = 1.
Proof.
  apply (proj1 (proj1 (active_index_on_load fourQuestions) oneCorrect) 1%nat
           (question 2 "q2" "-...")).
  - reflexivity.
  - left. vm_compute. reflexivity.
  - intros j q' Hj Hq'. assert (j = 0%nat) as -> by lia.
    simpl in Hq'. injection Hq' as <-.
    eexists. split; vm_compute; reflexivity.
Defined.

(** ** The gate *)

(** Past index 0 the gate answers [true] exactly when the question just
    before has a correct outcome. *)
Lemma canAccessQuestion_true_iff (st : State) (i : Z) :
  i <> 0 ->
  (canAccessQuestion st i = Return (JBool true)
   <-> exists q, index (questions st) (i - 1) = Some q
                 /\ hasCorrectOutcome (answers (userProgress st)) q).
Proof.
  intros Hi. unfold canAccessQuestion, hasCorrectOutcome.
  rewrite (proj2 (Z.eqb_neq i 0)) by lia.
  destruct (Nat.eqb_spec (length (questions st)) 0) as [Hlen|Hlen].
  - apply length_zero_iff_nil in Hlen. rewrite Hlen. unfold index.
    split; [discriminate|]. intros (q & Hq & _).
    destruct (i - 1 <? 0); discriminate.
  - destruct (index (questions st) (i - 1)) as [q|].
    + destruct (answers (userProgress st) !! id q) as [o|] eqn:Ho.
      * split.
        -- intros [= Hc]. exists q. split; [done|]. exists o. rewrite Ho. done.
        -- intros (q' & [= <-] & o' & Ho' & Hc). rewrite Ho in Ho'.
           injection Ho' as <-. by rewrite Hc.
      * split; [discriminate|].
        intros (q' & [= <-] & o' & Ho' & _). rewrite Ho in Ho'. discriminate.
    + split; [discriminate|]. intros (q & Hq & _). discriminate.
Qed.

(** [C2] Index 0 is always accessible; an index [i > 0] is reported
    accessible ([true] is returned) exactly when the answer map holds an
    outcome for [questions[i-1].id] whose [isCorrect] is [true]. *)
Theorem canAccessQuestion_gate (st : State) :
  canAccessQuestion st 0 = Return (JBool true)
  /\ forall i : Z, 0 < i ->
       (canAccessQuestion st i = Return (JBool true)
        <-> exists q, index (questions st) (i - 1) = Some q
                      /\ hasCorrectOutcome (answers (userProgress st)) q).
Proof.
  split; [reflexivity|].
  intros i Hi. apply canAccessQuestion_true_iff. lia.
Qed.

Lemma canAccessQuestion_gate_witness :
  canAccessQuestion (session fourQuestions 1 "" oneCorrect) 1 = Return (JBool true)
  <-> exists q, index fourQuestions (1 - 1) = Some q /\ hasCorrectOutcome oneCorrect q.
Proof.
  apply (proj2 (canAccessQuestion_gate (session fourQuestions 1 "" oneCorrect)) 1).
  lia.
Defined.

(** ** The locked screen *)

Lemma locked_inv (st : State) :
  locked st = true ->
  currentQuestionIndex st <> 0
  /\ (questions st = []
      \/ exists q, index (questions st) (currentQuestionIndex st - 1) = Some q
                   /\ lacksCorrectOutcome (answers (userProgress st)) q).
Proof.
  unfold locked, canAccessQuestion, lacksCorrectOutcome.
  destruct (Z.eqb_spec (currentQuestionIndex st) 0) as [|Hne]; [discriminate|].
  destruct (Nat.eqb_spec (length (questions st)) 0) as [Hlen|Hlen].
  - apply length_zero_iff_nil in Hlen. auto.
  - destruct (index (questions st) (currentQuestionIndex st - 1)) as [q|];
      [|discriminate].
    destruct (answers (userProgress st) !! id q) as [o|] eqn:Ho; simpl.
    + rewrite negb_true_iff. intros Hc. split; [done|]. right. exists q.
      split; [done|]. right. exists o. rewrite Ho. done.
    + intros _. split; [done|]. right. exists q. split; [done|]. left. by rewrite Ho.
Qed.

Lemma index_Some_range {A} (xs : list A) (i : Z) (x : A) :
  index xs i = Some x -> 0 <= i < Z.of_nat (length xs).
Proof.
  unfold index. destruct (Z.ltb_spec i 0) as [Hneg|Hpos]; [discriminate|].
  intros Hx%lookup_lt_Some. lia.
Qed.

Lemma index_in_range {A} (xs : list A) (i : Z) :
  0 <= i < Z.of_nat (length xs) -> is_Some (index xs i).
Proof.
  intros Hi. unfold index. rewrite (proj2 (Z.ltb_ge _ _)) by lia.
  apply lookup_lt_is_Some. lia.
Qed.

(** On the locked screen "Go Back" moves the index one step down, to
    [max 0 (index - 1)], and changes nothing else. The new index is
    accessible exactly when the old one was at most 1 or the question two
    places before it has a correct outcome. *)
Lemma goBack_steps_back_once (st : State) :
  locked st = true ->
  currentQuestionIndex (goBack st) = Z.max 0 (currentQuestionIndex st - 1)
  /\ questions (goBack st) = questions st
  /\ userProgress (goBack st) = userProgress st
  /\ morseInput (goBack st) = morseInput st
  /\ questionStartTime (goBack st) = questionStartTime st
  /\ (canAccessQuestion (goBack st) (currentQuestionIndex (goBack st)) = Return (JBool true)
      <-> currentQuestionIndex st <= 1
          \/ exists q, index (questions st) (currentQuestionIndex st - 2) = Some q
                       /\ hasCorrectOutcome (answers (userProgress st)) q)
  /\ (locked (goBack st) = true
      <-> ~ (currentQuestionIndex st <= 1
             \/ exists q, index (questions st) (currentQuestionIndex st - 2) = Some q
                          /\ hasCorrectOutcome (answers (userProgress st)) q)).
Proof.
  intros Hlocked. destruct (locked_inv st Hlocked) as [Hne Hshape].
  do 5 (split; [reflexivity|]).
  assert (canAccessQuestion (goBack st) (currentQuestionIndex (goBack st)) = Return (JBool true)
      <-> currentQuestionIndex st <= 1
          \/ exists q, index (questions st) (currentQuestionIndex st - 2) = Some q
                       /\ hasCorrectOutcome (answers (userProgress st)) q) as Hacc.
  { destruct (Z.le_gt_cases (currentQuestionIndex st) 1) as [Hle|Hgt].
    - split; [auto|]. intros _. simpl.
      rewrite Z.max_l by lia. reflexivity.
    - pose proof (canAccessQuestion_true_iff (goBack st)
                    (currentQuestionIndex (goBack st))) as Hgate.
      simpl in Hgate. simpl.
      rewrite Z.max_r in * by lia.
      replace (currentQuestionIndex st - 1 - 1) with (currentQuestionIndex st - 2)
        in Hgate by lia.
      rewrite Hgate by lia. split; [auto|]. intros [?|?]; [lia | done]. }
  split; [exact Hacc|].
  rewrite <- Hacc. unfold locked.
  destruct (canAccessQuestion (goBack st) (currentQuestionIndex (goBack st)))
    as [[[|]|]|m] eqn:E; simpl.
  - split; [discriminate | intros H; by destruct H].
  - split; [discriminate | done].
  - split; [discriminate | done].
  - exfalso. revert E. unfold canAccessQuestion. simpl.
    destruct (Z.max 0 (currentQuestionIndex st - 1) =? 0) eqn:E0; [discriminate|].
    apply Z.eqb_neq in E0.
    destruct (Nat.eqb_spec (length (questions st)) 0) as [|Hlen]; [discriminate|].
    destruct Hshape as [Hnil | (q & Hq & _)].
    { rewrite Hnil in Hlen. done. }
    apply index_Some_range in Hq.
    destruct (index_in_range (questions st) (Z.max 0 (currentQuestionIndex st - 1) - 1))
      as [q' ->]; [lia|].
    destruct (answers (userProgress st) !! id q'); discriminate.
Qed.

(** ** Submitting an answer *)

Lemma morse_char_not_white_space (c : ascii) :
  Ascii.eqb c "." || Ascii.eqb c "-" = true -> is_white_space c = false.
Proof.
  intros H. apply orb_true_iff in H as [H|H]; apply Ascii.eqb_eq in H; subst; reflexivity.
Qed.

Lemma trimStart_morse (s : string) : morse s = true -> trimStart s = s.
Proof.
  destruct s as [|c s]; [reflexivity|]. simpl.
  intros [Hc _]%andb_true_iff. by rewrite (morse_char_not_white_space c Hc).
Qed.

Lemma trimEnd_morse (s : string) : morse s = true -> trimEnd s = s.
Proof.
  induction s as [|c s IH]; [reflexivity|]. simpl.
  intros [Hc Hs]%andb_true_iff. rewrite (IH Hs).
  destruct s; [|reflexivity]. by rewrite (morse_char_not_white_space c Hc).
Qed.

Lemma trim_morse (s : string) : morse s = true -> trim s = s.
Proof.
  intros H. unfold trim. rewrite (trimStart_morse s H). by apply trimEnd_morse.
Qed.

Lemma morse_append (s t : string) :
  morse (s +:+ t) = morse s && morse t.
Proof.
  induction s as [|c s IH]; [reflexivity|].
  change (String c s +:+ t) with (String c (s +:+ t)). simpl.
  rewrite IH. by rewrite andb_assoc.
Qed.

Lemma morse_dropLast (s : string) : morse s = true -> morse (dropLast s) = true.
Proof.
  induction s as [|c s IH]; [reflexivity|]. simpl.
  intros [Hc Hs]%andb_true_iff. destruct s as [|c' s]; [reflexivity|].
  change (morse (String c (dropLast (String c' s))) = true). simpl morse at 1.
  rewrite Hc. simpl. by apply IH.
Qed.

Lemma press_morse (st : State) (k : Key) :
  morse (morseInput st) = true -> morse (morseInput (press st k)) = true.
Proof.
  intros H. destruct k; simpl.
  - by rewrite morse_append, H.
  - by rewrite morse_append, H.
  - by apply morse_dropLast.
Qed.

(** Whatever is typed on the input pad, the buffer holds dots and dashes
    only. *)
Lemma typed_input_is_morse (keys : list Key) (st : State) :
  morse (morseInput st) = true -> morse (morseInput (foldl press st keys)) = true.
Proof.
  revert st. induction keys as [|k keys IH]; intros st H; [done|].
  simpl. apply IH. by apply press_morse.
Qed.

Lemma checkAnswer_spec (input : string) (q : Question) :
  checkAnswer input q = true <-> trim input = correct_answer q.
Proof. unfold checkAnswer. apply String.eqb_eq. Qed.

(** A submission that passes the guards issues exactly one write. *)
Lemma handleSubmit_writes (env : Env) (st : State) (userId : string) (startTime : Z)
    (q : Question) :
  trim (morseInput st) <> "" ->
  questionStartTime st = Some startTime ->
  user env = Some userId ->
  index (questions st) (currentQuestionIndex st) = Some q ->
  exists st' rest,
    handleSubmit env st
    = Return (st', Upsert {| r_user_id := userId;
                             r_question_id := id q;
                             r_user_answer := trim (morseInput st);
                             r_is_correct := checkAnswer (morseInput st) q;
                             r_time_taken_seconds := (endTime env - startTime) / 1000;
                             r_answered_at := answeredAt env |} :: rest)
    /\ writes rest = []
    /\ (upsertFails env = true -> st' = st /\ rest = [ShowToast SaveFailed]).
Proof.
  intros Hinput Hstart Huser Hq. unfold handleSubmit.
  rewrite (proj2 (String.eqb_neq _ _) Hinput), Hstart, Huser.
  destruct (Nat.eqb_spec (length (questions st)) 0) as [Hlen|Hlen].
  { apply length_zero_iff_nil in Hlen. rewrite Hlen in Hq.
    unfold index in Hq. destruct (_ <? 0); discriminate. }
  rewrite Hq.
  destruct (upsertFails env).
  { eexists _, _. split; [reflexivity|]. split; [reflexivity|]. done. }
  destruct (checkAnswer (morseInput st) q).
  - destruct (currentQuestionIndex st <? Z.of_nat (length (questions st)) - 1);
      eexists _, _; (split; [reflexivity|]); (split; [reflexivity|]); discriminate.
  - eexists _, _. split; [reflexivity|]. split; [reflexivity|]. discriminate.
Qed.

(** *** Calls in flight *)

Lemma press_frame (st : State) (k : Key) :
  questions (press st k) = questions st
  /\ currentQuestionIndex (press st k) = currentQuestionIndex st
  /\ userProgress (press st k) = userProgress st
  /\ questionStartTime (press st k) = questionStartTime st
  /\ loading (press st k) = loading st.
Proof. by destruct k. Qed.

(** The setters of a call are what the call, run to its end, does to the
    state it was made in. *)
Lemma settersAfterWrite_agree (env : Env) (st : State) :
  match handleSubmit env st with
  | Return (st', _) => foldl applySetter st (settersAfterWrite env st) = st'
  | Throw _ => settersAfterWrite env st = []
  end.
Proof.
  unfold handleSubmit, settersAfterWrite.
  destruct (String.eqb (trim (morseInput st)) ""); [done|].
  destruct (questionStartTime st) eqn:Hstart; [|done].
  destruct (user env); [|done].
  destruct (length (questions st) =? 0)%nat; [done|].
  destruct (index (questions st) (currentQuestionIndex st)) as [q|]; [|done].
  destruct (upsertFails env); [done|].
  destruct (checkAnswer (morseInput st) q); [|by simpl; rewrite Hstart].
  destruct (currentQuestionIndex st <? Z.of_nat (length (questions st)) - 1);
    by simpl; rewrite ?Hstart.
Qed.

Lemma act_settles (env : Env) (st : State) :
  foldl applySetter st (settersAfterWrite env st) = act st (Submit env).
Proof.
  pose proof (settersAfterWrite_agree env st) as H. simpl.
  destruct (handleSubmit env st) as [[st' effects]|m]; [done|]. by rewrite H.
Qed.

(** A call that completes late sets the index, the start time and the
    progress of its own render; the buffer it leaves is the current one
    or the empty one, and the questions stay. *)
Lemma settle_frame (env : Env) (captured st : State) :
  let st' := foldl applySetter st (settersAfterWrite env captured) in
  questions st' = questions st
  /\ loading st' = loading st
  /\ (morseInput st' = morseInput st \/ morseInput st' = "")
  /\ (questionStartTime st' = questionStartTime st \/ is_Some (questionStartTime st')).
Proof.
  unfold settersAfterWrite.
  destruct (String.eqb (trim (morseInput captured)) ""); [simpl; auto|].
  destruct (questionStartTime captured); [|simpl; auto].
  destruct (user env); [|simpl; auto].
  destruct (length (questions captured) =? 0)%nat; [simpl; auto|].
  destruct (index (questions captured) (currentQuestionIndex captured)) as [q|];
    [|simpl; auto].
  destruct (upsertFails env); [simpl; auto|].
  destruct (checkAnswer (morseInput captured) q); [|simpl; auto].
  destruct (currentQuestionIndex captured <? Z.of_nat (length (questions captured)) - 1);
    simpl; eauto 6.
Qed.

(** What no event changes: the questions and the end of the load; the
    buffer holds dots and dashes, and the start time is set. *)
Lemma occur_frame (s : Session) (e : Event) :
  questions (current (occur s e)) = questions (current s)
  /\ loading (current (occur s e)) = loading (current s)
  /\ (morse (morseInput (current s)) = true ->
      morse (morseInput (current (occur s e))) = true)
  /\ (is_Some (questionStartTime (current s)) ->
      is_Some (questionStartTime (current (occur s e)))).
Proof.
  destruct e as [k|env|n|]; simpl.
  - destruct (render (current s)) as [[| | |q]|m]; try done. simpl.
    destruct (press_frame (current s) k) as (Hq & _ & _ & Ht & Hl).
    rewrite Hq, Hl, Ht. split; [done|]. split; [done|]. split; [|done].
    apply press_morse.
  - destruct (render (current s)) as [[| | |q]|m]; try done.
    by destruct (submitDisabled (current s) q).
  - destruct (inFlight s !! n) as [[env captured]|]; [|done]. simpl.
    destruct (settle_frame env captured (current s)) as (Hq & Hl & Hm & Ht).
    split; [done|]. split; [done|]. split.
    + destruct Hm as [-> | ->]; done.
    + destruct Ht as [-> | Ht]; done.
  - by destruct (render (current s)) as [[| | |q]|m].
Qed.

Lemma run_frame (events : list Event) (s : Session) :
  let s' := foldl occur s events in
  questions (current s') = questions (current s)
  /\ loading (current s') = loading (current s)
  /\ (morse (morseInput (current s)) = true -> morse (morseInput (current s')) = true)
  /\ (is_Some (questionStartTime (current s)) ->
      is_Some (questionStartTime (current s'))).
Proof.
  revert s. induction events as [|e events IH]; intros s; [done|].
  simpl. destruct (occur_frame s e) as (Hq & Hl & Hm & Ht).
  destruct (IH (occur s e)) as (Hq' & Hl' & Hm' & Ht').
  split; [congruence|]. split; [congruence|]. split; auto.
Qed.

(** In every session the buffer is a string of dots and dashes, and once
    questions are loaded the start time is set. *)
Lemma reachable_input (s : Session) :
  reachable s ->
  morse (morseInput (current s)) = true
  /\ (questions (current s) = [] \/ is_Some (questionStartTime (current s))).
Proof.
  intros (questionsResponse & answersResponse & now & events & ->).
  destruct (run_frame events
              (start (fst (fetchQuestionsAndProgress questionsResponse answersResponse now
                             initialState)))) as (Hq & _ & Hm & Ht).
  split.
  - apply Hm. by destruct questionsResponse as [[?|]|], answersResponse.
  - rewrite Hq.
    destruct questionsResponse as [[questionsData|]|]; [|by left..].
    destruct answersResponse as [userAnswers|]; [|by left].
    right. apply Ht. simpl. eauto.
Qed.

Lemma render_question (st : State) (q : Question) :
  render st = Return (QuestionScreen q) ->
  index (questions st) (currentQuestionIndex st) = Some q
  /\ questions st <> []
  /\ canAccessQuestion st (currentQuestionIndex st) = Return (JBool true).
Proof.
  unfold render. destruct (loading st); [discriminate|].
  destruct (canAccessQuestion st (currentQuestionIndex st)) as [[[|]|]|m];
    cbn; try discriminate.
  destruct (Nat.eqb_spec (length (questions st)) 0) as [|Hlen]; [discriminate|].
  destruct (index (questions st) (currentQuestionIndex st)) as [q'|]; [|discriminate].
  intros [= ->]. split; [done|]. split; [|done].
  intros Hnil. by rewrite Hnil in Hlen.
Qed.

(** [C6] Whatever was loaded and whatever happened since (keys,
    submissions that overlap or not, writes completing in any order,
    "Go Back"), a submission of a non-empty buffer for the question on
    the screen writes one record; the stored answer is the buffer itself,
    and the [is_correct] flag is [true] exactly when the buffer is equal
    to the [correct_answer] of the question, [false] for any other
    buffer. *)
Theorem submit_flag_is_exact_match (s : Session) (env : Env) (userId : string)
    (q : Question) :
  reachable s ->
  render (current s) = Return (QuestionScreen q) ->
  morseInput (current s) <> "" ->
  user env = Some userId ->
  exists st' r rest,
    handleSubmit env (current s) = Return (st', Upsert r :: rest)
    /\ writes rest = []
    /\ r_question_id r = id q
    /\ r_user_answer r = morseInput (current s)
    /\ (r_is_correct r = true <-> morseInput (current s) = correct_answer q)
    /\ (r_is_correct r = false <-> morseInput (current s) <> correct_answer q).
Proof.
  intros Hreach Hrender Hinput Huser.
  destruct (reachable_input s Hreach) as [Hmorse Hstart].
  destruct (render_question _ _ Hrender) as (Hq & Hne & _).
  destruct Hstart as [Hnil | [startTime Hstart]]; [done|].
  pose proof (trim_morse _ Hmorse) as Htrim.
  destruct (handleSubmit_writes env (current s) userId startTime q) as
    (st' & rest & Hrun & Hrest & _); [by rewrite Htrim | done..|].
  eexists st', _, rest. split; [exact Hrun|]. split; [exact Hrest|].
  simpl. split; [reflexivity|]. split; [exact Htrim|].
  pose proof (checkAnswer_spec (morseInput (current s)) q) as Hspec.
  rewrite Htrim in Hspec. split; [exact Hspec|].
  rewrite <- Hspec. by destruct (checkAnswer (morseInput (current s)) q).
Qed.

Lemma submit_flag_is_exact_match_witness :
  exists st' r rest,
    handleSubmit (sampleEnv false) (current typedAnswer) = Return (st', Upsert r :: rest)
    /\ writes rest = []
    /\ r_question_id r = "q1"
    /\ r_user_answer r = ".-"
    /\ (r_is_correct r = true <-> ".-" = ".-")
    /\ (r_is_correct r = false <-> ".-" <> ".-").
Proof.
  apply (submit_flag_is_exact_match typedAnswer (sampleEnv false) "u1"
           (question 1 "q1" ".-")).
  - by exists (Data (Some fourQuestions)), (Data (Some [])), 1000, [Tap Dot; Tap Dash].
  - by vm_compute.
  - by vm_compute.
  - reflexivity.
Defined.

(** [C9] "Go Back" can land on a locked index. A wrong answer to the
    first question is submitted and its write is slow; the right answers
    to the first and the second question are submitted and written, and
    the index is 2; then the first write completes and the rest of that
    call stores the progress of its own render, with the wrong answer and
    without the two right ones. The locked screen is rendered; "Go Back"
    sets the index to 1, which is locked as well, while index 0 is
    accessible. *)
Theorem stale_submission_defeats_go_back :
  reachable afterStaleSubmission
  /\ inFlight afterStaleSubmission = []
  /\ currentQuestionIndex (current afterStaleSubmission) = 2
  /\ answers (userProgress (current afterStaleSubmission))
     = {[ "q1" := {| answer := "."; isCorrect := false; timestamp := 8500 |} ]}
  /\ render (current afterStaleSubmission) = Return LockedScreen
  /\ locked (current afterStaleSubmission) = true
  /\ current (occur afterStaleSubmission Back) = goBack (current afterStaleSubmission)
  /\ currentQuestionIndex (goBack (current afterStaleSubmission)) = 1
  /\ canAccessQuestion (goBack (current afterStaleSubmission)) 1 = Return (JBool false)
  /\ render (goBack (current afterStaleSubmission)) = Return LockedScreen
  /\ canAccessQuestion (current afterStaleSubmission) 0 = Return (JBool true)
  /\ ~ (forall s : Session,
          reachable s ->
          locked (current s) = true ->
          canAccessQuestion (goBack (current s)) (currentQuestionIndex (goBack (current s)))
          = Return (JBool true)).
Proof.
  assert (reachable afterStaleSubmission) as Hreach.
  { by exists (Data (Some fourQuestions)), (Data (Some [])), 1000, staleSubmission. }
  split; [exact Hreach|].
  split; [by vm_compute|]. split; [by vm_compute|].
  split; [by vm_compute|]. split; [by vm_compute|]. split; [by vm_compute|].
  split; [by vm_compute|]. split; [by vm_compute|]. split; [by vm_compute|].
  split; [by vm_compute|]. split; [by vm_compute|].
  intros H. specialize (H afterStaleSubmission Hreach ltac:(by vm_compute)).
  vm_compute in H. discriminate.
Qed.

(** [C7] When the write fails, the submit leaves the whole session state
    as it was: the progress, the current index, the input buffer and the
    start time; it issues that one write and none after it, and reports
    the failure. *)
Theorem failed_write_changes_nothing (env : Env) (st : State) :
  upsertFails env = true ->
  (forall st' effects,
      handleSubmit env st = Return (st', effects) ->
      st' = st /\ (length (writes effects) <= 1)%nat)
  /\ (forall (userId : string) (startTime : Z) (q : Question),
        trim (morseInput st) <> "" ->
        questionStartTime st = Some startTime ->
        user env = Some userId ->
        index (questions st) (currentQuestionIndex st) = Some q ->
        exists r,
          handleSubmit env st = Return (st, [Upsert r; ShowToast SaveFailed])
          /\ writes [Upsert r; ShowToast SaveFailed] = [r]
          /\ r_question_id r = id q).
Proof.
  intros Hfail. split.
  - intros st' effects. unfold handleSubmit. rewrite Hfail.
    destruct (String.eqb (trim (morseInput st)) "").
    { intros [= <- <-]. split; [done | simpl; lia]. }
    destruct (questionStartTime st) as [startTime|]; [|intros [= <- <-]; split; [done | simpl; lia]].
    destruct (user env) as [userId|]; [|intros [= <- <-]; split; [done | simpl; lia]].
    destruct (length (questions st) =? 0)%nat; [intros [= <- <-]; split; [done | simpl; lia]|].
    destruct (index (questions st) (currentQuestionIndex st)) as [q|]; [|discriminate].
    intros [= <- <-]. split; [done | simpl; lia].
  - intros userId startTime q Hinput Hstart Huser Hq.
    destruct (handleSubmit_writes env st userId startTime q Hinput Hstart Huser Hq)
      as (st' & rest & Hrun & _ & Hsame).
    destruct (Hsame Hfail) as [-> ->].
    eexists. split; [exact Hrun|]. split; reflexivity.
Qed.

Lemma failed_write_changes_nothing_witness :
  exists r,
    handleSubmit (sampleEnv true) paddedInput
    = Return (paddedInput, [Upsert r; ShowToast SaveFailed])
    /\ writes [Upsert r; ShowToast SaveFailed] = [r]
    /\ r_question_id r = "q1".
Proof.
  apply (proj2 (failed_write_changes_nothing (sampleEnv true) paddedInput eq_refl)
           "u1" 1000 (question 1 "q1" ".-")).
  - vm_compute. discriminate.
  - reflexivity.
  - reflexivity.
  - reflexivity.
Defined.

End CompetitionProofs.

(** * Properties of the leaderboard *)

Module NavbarProofs.
Import Navbar.

(** ** The dictionary of scores *)

Lemma get_set_eq (s : list (string * UserData)) (k : string) (v : UserData) :
  get (set s k v) k = Some v.
Proof.
  induction s as [|[k0 v0] s IH]; simpl.
  - by rewrite String.eqb_refl.
  - destruct (String.eqb_spec k0 k) as [->|Hne]; simpl.
    + by rewrite String.eqb_refl.
    + by rewrite (proj2 (String.eqb_neq _ _) Hne).
Qed.

Lemma get_set_ne (s : list (string * UserData)) (k k' : string) (v : UserData) :
  k <> k' -> get (set s k v) k' = get s k'.
Proof.
  intros Hne. induction s as [|[k0 v0] s IH]; simpl.
  - by rewrite (proj2 (String.eqb_neq _ _) Hne).
  - destruct (String.eqb_spec k0 k) as [->|Hne0]; simpl.
    + by rewrite (proj2 (String.eqb_neq _ _) Hne).
    + by rewrite IH.
Qed.

Lemma get_Some_elem_of (s : list (string * UserData)) (k : string) (v : UserData) :
  get s k = Some v -> (k, v) ∈ s.
Proof.
  induction s as [|[k0 v0] s IH]; simpl; [discriminate|].
  destruct (String.eqb_spec k0 k) as [->|Hne].
  - intros [= ->]. apply elem_of_cons; by left.
  - intros H. apply elem_of_cons. right. auto.
Qed.

Lemma elem_of_get (s : list (string * UserData)) (k : string) (v : UserData) :
  (k, v) ∈ s -> exists v', get s k = Some v'.
Proof.
  induction s as [|[k0 v0] s IH]; simpl; [by intros ?%elem_of_nil|].
  intros [[= <- <-] | Hin]%elem_of_cons.
  - rewrite String.eqb_refl. eauto.
  - destruct (String.eqb k0 k); eauto.
Qed.

(** ** One step of the aggregation *)

Lemma countAnswer_get (acc acc' : list (string * UserData)) (a : AnswerRow) :
  countAnswer acc a = Return acc' ->
  (forall u, u <> user_id a -> get acc' u = get acc u)
  /\ exists d0,
       (get acc (user_id a) = Some d0
        \/ (get acc (user_id a) = None
            /\ exists p, profiles a = Some p /\ d0 = fresh a p))
       /\ get acc' (user_id a) = Some (counted d0 a).
Proof.
  unfold countAnswer.
  destruct (get acc (user_id a)) as [d0|] eqn:Hget.
  - cbn. rewrite Hget. intros Hrun. 
    assert (acc' = if decide (question_id a ∈ questionIds d0) then acc
                   else set acc (user_id a) (counted d0 a)) as ->.
    { unfold counted. destruct (decide _); by injection Hrun as <-. }
    split.
    + intros u Hu. destruct (decide _); [done|]. by apply get_set_ne.
    + exists d0. split; [by left|].
      destruct (decide (question_id a ∈ questionIds d0)) as [Hin|Hin].
      * unfold counted. by rewrite decide_True.
      * apply get_set_eq.
  - destruct (profiles a) as [p|]; [|discriminate]. cbn.
    rewrite get_set_eq. rewrite decide_False by set_solver. intros [= <-].
    split.
    + intros u Hu. by rewrite !get_set_ne.
    + exists (fresh a p). split; [right; eauto|].
      rewrite get_set_eq. unfold counted. rewrite decide_False by set_solver. done.
Qed.

Lemma get_None_keys (s : list (string * UserData)) (k : string) :
  get s k = None <-> k ∉ s.*1.
Proof.
  induction s as [|[k0 v0] s IH]; cbn [get].
  - split; [intros _ ?%elem_of_nil; done | done].
  - rewrite fmap_cons, not_elem_of_cons. cbn [fst].
    destruct (String.eqb_spec k0 k) as [->|Hne].
    + split; [discriminate | intros [? _]; done].
    + rewrite IH. split; [intros H; split; [congruence | done] | intros [_ H]; done].
Qed.

Lemma set_keys (s : list (string * UserData)) (k : string) (v : UserData) :
  (set s k v).*1 = match get s k with Some _ => s.*1 | None => s.*1 ++ [k] end.
Proof.
  induction s as [|[k0 v0] s IH]; cbn [get set]; [done|].
  destruct (String.eqb_spec k0 k) as [->|Hne]; rewrite !fmap_cons; [done|].
  rewrite IH. by destruct (get s k).
Qed.

Lemma set_NoDup (s : list (string * UserData)) (k : string) (v : UserData) :
  NoDup s.*1 -> NoDup (set s k v).*1.
Proof.
  intros Hs. rewrite set_keys. destruct (get s k) eqn:E; [done|].
  apply NoDup_app. split; [done|]. split; [|apply NoDup_singleton].
  intros x Hx ->%list_elem_of_singleton. by apply get_None_keys in E.
Qed.

Lemma NoDup_get (s : list (string * UserData)) (k : string) (v : UserData) :
  NoDup s.*1 -> (k, v) ∈ s -> get s k = Some v.
Proof.
  induction s as [|[k0 v0] s IH]; simpl; [by intros _ ?%elem_of_nil|].
  intros [Hk0 Hs]%NoDup_cons [[= <- <-] | Hin]%elem_of_cons.
  - by rewrite String.eqb_refl.
  - destruct (String.eqb_spec k0 k) as [->|Hne]; [|auto].
    exfalso. apply Hk0. apply list_elem_of_fmap. by exists (k, v).
Qed.

Lemma countAnswer_NoDup (acc acc' : list (string * UserData)) (a : AnswerRow) :
  countAnswer acc a = Return acc' -> NoDup acc.*1 -> NoDup acc'.*1.
Proof.
  unfold countAnswer. intros Hrun Hacc.
  destruct (get acc (user_id a)) as [d0|] eqn:Hget.
  - cbn in Hrun. rewrite Hget in Hrun.
    destruct (decide _); injection Hrun as <-; [done|]. by apply set_NoDup.
  - destruct (profiles a) as [p|]; [|discriminate]. cbn in Hrun.
    rewrite get_set_eq in Hrun. destruct (decide _); injection Hrun as <-.
    + by apply set_NoDup.
    + by do 2 apply set_NoDup.
Qed.

(** ** First records *)

Lemma firstRecordsAfter_app (earlier l1 l2 : list AnswerRow) :
  firstRecordsAfter earlier (l1 ++ l2)
  = firstRecordsAfter earlier l1 ++ firstRecordsAfter (earlier ++ l1) l2.
Proof.
  revert earlier. induction l1 as [|a l1 IH]; intros earlier; simpl.
  - by rewrite app_nil_r.
  - rewrite IH, <- !app_assoc. done.
Qed.

Lemma firstRecords_snoc (log : list AnswerRow) (a : AnswerRow) :
  firstRecords (log ++ [a])
  = firstRecords log ++ (if decide (Exists (sameKey a) log) then [] else [a]).
Proof.
  unfold firstRecords. rewrite firstRecordsAfter_app. simpl. by rewrite app_nil_r.
Qed.

Lemma firstRecordsAfter_elem_of (earlier log : list AnswerRow) (x : AnswerRow) :
  x ∈ firstRecordsAfter earlier log -> x ∈ log.
Proof.
  revert earlier. induction log as [|a log IH]; intros earlier; simpl; [done|].
  rewrite elem_of_app, elem_of_cons. intros [Hx | Hx].
  - destruct (decide _); [by apply elem_of_nil in Hx|].
    apply list_elem_of_singleton in Hx. by left.
  - right. eauto.
Qed.

Lemma ofUser_app (u : string) (l1 l2 : list AnswerRow) :
  ofUser u (l1 ++ l2) = ofUser u l1 ++ ofUser u l2.
Proof. apply filter_app. Qed.

Lemma ofUser_nil_firstRecords (u : string) (log : list AnswerRow) :
  ofUser u log = [] -> ofUser u (firstRecords log) = [].
Proof.
  intros Hnil. apply elem_of_nil_inv. intros x [Hu Hx]%list_elem_of_filter.
  apply firstRecordsAfter_elem_of in Hx.
  assert (x ∈ ofUser u log) as Hin by (by apply list_elem_of_filter).
  rewrite Hnil in Hin. by apply elem_of_nil in Hin.
Qed.

Lemma Exists_sameKey_questionsOf (a : AnswerRow) (log : list AnswerRow) :
  Exists (sameKey a) log <-> question_id a ∈ questionsOf (user_id a) log.
Proof.
  unfold questionsOf, ofUser, sameKey.
  rewrite elem_of_list_to_set, list_elem_of_fmap, Exists_exists. split.
  - intros (b & Hb & Hu & Hq). exists b. rewrite list_elem_of_filter. done.
  - intros (b & Hq & [Hu Hb]%list_elem_of_filter). exists b. done.
Qed.

Lemma questionsOf_snoc (u : string) (log : list AnswerRow) (a : AnswerRow) :
  questionsOf u (log ++ [a])
  = if decide (user_id a = u) then {[question_id a]} ∪ questionsOf u log
    else questionsOf u log.
Proof.
  unfold questionsOf. rewrite ofUser_app. unfold ofUser at 2.
  rewrite filter_cons, filter_nil.
  destruct (decide (user_id a = u)).
  - rewrite fmap_app, list_to_set_app_L. simpl. set_solver.
  - by rewrite app_nil_r.
Qed.

Lemma sumTimes_app (l1 l2 : list AnswerRow) :
  sumTimes (l1 ++ l2) = sumTimes l1 + sumTimes l2.
Proof.
  unfold sumTimes. induction l1 as [|a l1 IH]; simpl; [done|]. rewrite IH. lia.
Qed.

(** ** The invariant of the aggregation *)

Lemma agrees_nil : agrees [] [].
Proof. split; [constructor | done]. Qed.

Lemma countAnswer_agrees (log : list AnswerRow) (acc acc' : list (string * UserData))
    (a : AnswerRow) :
  agrees log acc -> countAnswer acc a = Return acc' -> agrees (log ++ [a]) acc'.
Proof.
  intros [Hnodup Hinv] Hrun. split; [by eapply countAnswer_NoDup|].
  destruct (countAnswer_get _ _ _ Hrun) as (Hother & d0 & Hd0 & Hnew).
  intros u. rewrite firstRecords_snoc, !ofUser_app, questionsOf_snoc.
  destruct (decide (user_id a = u)) as [<-|Hne].
  - rewrite Hnew. specialize (Hinv (user_id a)).
    assert (ofUser (user_id a) [a] = [a]) as Hone.
    { unfold ofUser. rewrite filter_cons, filter_nil. by rewrite decide_True. }
    split; [rewrite Hone; by destruct (ofUser (user_id a) log)|].
    assert (questionIds d0 = questionsOf (user_id a) log
            /\ correct d0 = Z.of_nat (length (ofUser (user_id a) (firstRecords log)))
            /\ totalTime d0 = sumTimes (ofUser (user_id a) (firstRecords log)))
      as (Hq & Hc & Ht).
    { destruct Hd0 as [Hget | (Hget & p & _ & ->)]; rewrite Hget in Hinv.
      - naive_solver.
      - rewrite (ofUser_nil_firstRecords _ _ Hinv). unfold questionsOf.
        rewrite Hinv. done. }
    unfold counted.
    destruct (decide (question_id a ∈ questionIds d0)) as [Hin|Hin].
    + rewrite decide_True by (apply Exists_sameKey_questionsOf; by rewrite <- Hq).
      unfold ofUser at 2 4. rewrite filter_nil, !app_nil_r.
      split; [done|]. split; [done|]. rewrite Hq in *. set_solver.
    + rewrite decide_False by (rewrite Exists_sameKey_questionsOf; by rewrite <- Hq).
      rewrite Hone, length_app, sumTimes_app. simpl.
      split; [lia|]. split; [lia|]. by rewrite Hq.
  - rewrite (Hother u) by done. specialize (Hinv u).
    assert (ofUser u [a] = []) as Hnone.
    { unfold ofUser. rewrite filter_cons, filter_nil. by rewrite decide_False. }
    assert (ofUser u (if decide (Exists (sameKey a) log) then [] else [a]) = []) as Hnone'.
    { destruct (decide _); [done | exact Hnone]. }
    rewrite Hnone, Hnone', !app_nil_r. done.
Qed.

Lemma forEach_agrees (rest log : list AnswerRow) (acc scores : list (string * UserData)) :
  agrees log acc -> forEach rest acc = Return scores -> agrees (log ++ rest) scores.
Proof.
  revert log acc. induction rest as [|a rest IH]; intros log acc Hacc; simpl.
  - intros [= <-]. by rewrite app_nil_r.
  - destruct (countAnswer acc a) as [acc'|m] eqn:Hstep; [|discriminate]. cbn.
    intros Hrun. replace (log ++ a :: rest) with ((log ++ [a]) ++ rest)
      by (by rewrite <- app_assoc).
    eapply IH; [|exact Hrun]. by eapply countAnswer_agrees.
Qed.

Lemma aggregate_agrees (log : list AnswerRow) (scores : list (string * UserData)) :
  aggregate log = Return scores -> agrees log scores.
Proof. intros Hrun. apply (forEach_agrees log [] [] scores agrees_nil Hrun). Qed.

(** ** Sorting *)

Section Sort.
Context {A : Type} (compare : A -> A -> Q).

Hypothesis compare_total :
  forall a b, ~ inOrder compare a b -> inOrder compare b a.
Hypothesis compare_trans :
  forall a b c, inOrder compare a b -> inOrder compare b c -> inOrder compare a c.

Lemma insertSorted_Permutation (x : A) (l : list A) :
  insertSorted compare x l ≡ₚ x :: l.
Proof.
  induction l as [|y l IH]; simpl; [done|].
  destruct (Qle_bool (compare x y) 0); [done|].
  rewrite IH. apply Permutation_swap.
Qed.

Lemma sort_Permutation (l : list A) : sort compare l ≡ₚ l.
Proof.
  induction l as [|x l IH]; simpl; [done|].
  unfold sort in *. simpl. rewrite insertSorted_Permutation. by rewrite IH.
Qed.

Lemma insertSorted_StronglySorted (x : A) (l : list A) :
  StronglySorted (inOrder compare) l ->
  StronglySorted (inOrder compare) (insertSorted compare x l).
Proof.
  induction 1 as [|y l Hl IH Hy]; simpl.
  - repeat constructor.
  - destruct (Qle_bool (compare x y) 0) eqn:E.
    + apply Qle_bool_iff in E. constructor; [by constructor|].
      constructor; [exact E|].
      eapply Forall_impl; [exact Hy|]. intros z Hz. by apply compare_trans with y.
    + assert (inOrder compare y x) as Hyx.
      { apply compare_total. intros Hxy. apply Qle_bool_iff in Hxy. congruence. }
      constructor; [exact IH|].
      rewrite (insertSorted_Permutation x l). by constructor.
Qed.

Lemma sort_StronglySorted (l : list A) :
  StronglySorted (inOrder compare) (sort compare l).
Proof.
  induction l as [|x l IH]; [constructor|].
  unfold sort in *. simpl. by apply insertSorted_StronglySorted.
Qed.

End Sort.

Lemma StronglySorted_lookup {A} (R : A -> A -> Prop) (l : list A) (i j : nat) (a b : A) :
  StronglySorted R l -> (i < j)%nat -> l !! i = Some a -> l !! j = Some b -> R a b.
Proof.
  intros Hl. revert i j. induction Hl as [|x l Hl IH Hx]; intros i j Hij Ha Hb.
  - discriminate.
  - destruct j as [|j]; [lia|]. simpl in Hb. destruct i as [|i].
    + injection Ha as <-. rewrite Forall_forall in Hx. apply Hx.
      by eapply list_elem_of_lookup_2.
    + simpl in Ha. apply (IH i j); [lia | done | done].
Qed.

Lemma StronglySorted_take {A} (R : A -> A -> Prop) (l : list A) (n : nat) :
  StronglySorted R l -> StronglySorted R (take n l).
Proof.
  intros Hl. revert n. induction Hl as [|x l Hl IH Hx]; intros [|n]; simpl;
    try constructor; [apply IH|].
  rewrite Forall_forall in *. intros y Hy. apply Hx.
  by eapply (subseteq_take n).
Qed.

Lemma StronglySorted_weaken {A} (R R' : A -> A -> Prop) (l : list A) :
  (forall a b, R a b -> R' a b) -> StronglySorted R l -> StronglySorted R' l.
Proof.
  intros HR. induction 1 as [|x l Hl IH Hx]; constructor; [done|].
  eapply Forall_impl; [exact Hx|]. intros y. apply HR.
Qed.

(** ** The comparator *)

Lemma compareEntries_spec (a b : ScoreEntry) :
  inOrder compareEntries a b <-> entryBefore a b.
Proof.
  unfold inOrder, compareEntries, entryBefore.
  destruct (Qeq_bool (entry_total_score b) (entry_total_score a)) eqn:E; simpl.
  - apply Qeq_bool_iff in E. rewrite <- (Zle_Qle _ 0).
    split.
    + intros H. right. split; [by symmetry | lia].
    + intros [H | [_ H]]; [lra | lia].
  - apply Qeq_bool_neq in E. split.
    + intros H. left. lra.
    + intros [H | [H _]]; [lra|]. exfalso. apply E. by symmetry.
Qed.

Lemma compareEntries_total (a b : ScoreEntry) :
  ~ inOrder compareEntries a b -> inOrder compareEntries b a.
Proof.
  rewrite !compareEntries_spec. unfold entryBefore. intros H.
  destruct (Q_dec (entry_total_score a) (entry_total_score b)) as [[Hlt|Hgt]|Heq].
  - by left.
  - exfalso. apply H. by left.
  - right. split; [by symmetry|].
    destruct (Z.le_gt_cases (entry_total_time b) (entry_total_time a)); [done|].
    exfalso. apply H. right. split; [done | lia].
Qed.

Lemma compareEntries_trans (a b c : ScoreEntry) :
  inOrder compareEntries a b -> inOrder compareEntries b c -> inOrder compareEntries a c.
Proof.
  rewrite !compareEntries_spec. unfold entryBefore.
  intros [H1 | [H1 T1]] [H2 | [H2 T2]].
  - left. lra.
  - left. lra.
  - left. lra.
  - right. split; [lra | lia].
Qed.

(** ** The ranked list *)

Lemma sortedEntries_StronglySorted (userScores : list (string * UserData)) :
  StronglySorted entryBefore (sortedEntries userScores).
Proof.
  eapply StronglySorted_weaken.
  - intros a b. apply compareEntries_spec.
  - apply sort_StronglySorted; [apply compareEntries_total | apply compareEntries_trans].
Qed.

Lemma leaderboardData_lookup (userScores : list (string * UserData)) (i : nat)
    (e : LeaderboardEntry) :
  leaderboardData userScores !! i = Some e ->
  exists entry, take 10 (sortedEntries userScores) !! i = Some entry /\ e = withRank i entry.
Proof.
  unfold leaderboardData. fold (sortedEntries userScores).
  rewrite list_lookup_imap. destruct (take 10 (sortedEntries userScores) !! i) as [entry|];
    [|discriminate].
  intros [= <-]. eauto.
Qed.

(** [C4] The leaderboard holds the first ten entries (all of them when
    there are fewer) of the users' entries sorted by score, highest
    first, and for equal scores by total time, lowest first; the entry at
    position [i] has rank [i + 1], so no two entries share a rank. *)
Theorem leaderboard_is_ranked (userScores : list (string * UserData)) :
  (length (leaderboardData userScores) <= 10)%nat
  /\ length (leaderboardData userScores) = (10 `min` length userScores)%nat
  /\ (forall i e, leaderboardData userScores !! i = Some e -> rank e = Z.of_nat i + 1)
  /\ (forall i j a b,
        (i < j)%nat ->
        leaderboardData userScores !! i = Some a ->
        leaderboardData userScores !! j = Some b ->
        ranksBefore a b)
  /\ (forall i j a b,
        leaderboardData userScores !! i = Some a ->
        leaderboardData userScores !! j = Some b ->
        rank a = rank b -> i = j)
  /\ (sortedEntries userScores ≡ₚ map toEntry userScores
      /\ StronglySorted entryBefore (sortedEntries userScores)
      /\ leaderboardData userScores = imap withRank (take 10 (sortedEntries userScores))).
Proof.
  assert (length (leaderboardData userScores) = (10 `min` length userScores)%nat) as Hlen.
  { unfold leaderboardData. rewrite length_imap, length_take.
    rewrite (Permutation_length (sort_Permutation compareEntries _)).
    by rewrite length_map. }
  split; [lia|]. split; [exact Hlen|]. split; [|split; [|split]].
  - intros i e (entry & _ & ->)%leaderboardData_lookup. reflexivity.
  - intros i j a b Hij (ea & Ha & ->)%leaderboardData_lookup
      (eb & Hb & ->)%leaderboardData_lookup.
    unfold ranksBefore. simpl.
    apply (StronglySorted_lookup entryBefore (take 10 (sortedEntries userScores)) i j);
      [|done..].
    apply StronglySorted_take, sortedEntries_StronglySorted.
  - intros i j a b (ea & _ & ->)%leaderboardData_lookup
      (eb & _ & ->)%leaderboardData_lookup. simpl. lia.
  - split; [apply sort_Permutation|]. split; [apply sortedEntries_StronglySorted|].
    reflexivity.
Qed.

Lemma leaderboard_is_ranked_witness :
  ranksBefore
    (withRank 0 (toEntry ("u2", {| name := "Bob"; correct := 2; totalTime := 30;
                                   questionIds := ∅ |})))
    (withRank 1 (toEntry ("u1", {| name := "Ann"; correct := 1; totalTime := 7;
                                   questionIds := ∅ |}))).
Proof.
  apply (proj1 (proj2 (proj2 (proj2 (leaderboard_is_ranked
           [("u1", {| name := "Ann"; correct := 1; totalTime := 7; questionIds := ∅ |});
            ("u2", {| name := "Bob"; correct := 2; totalTime := 30; questionIds := ∅ |})]))))
           0%nat 1%nat).
  - lia.
  - by vm_compute.
  - by vm_compute.
Defined.

(** ** Scores *)

Lemma length_firstRecords_ofUser (u : string) (log : list AnswerRow) :
  length (ofUser u (firstRecords log)) = size (questionsOf u log).
Proof.
  induction log as [|a log IH] using rev_ind; [done|].
  rewrite firstRecords_snoc, ofUser_app, length_app, questionsOf_snoc, IH.
  destruct (decide (user_id a = u)) as [<-|Hne].
  - destruct (decide (Exists (sameKey a) log)) as [Hdup|Hnew].
    + apply Exists_sameKey_questionsOf in Hdup.
      replace ({[question_id a]} ∪ questionsOf (user_id a) log)
        with (questionsOf (user_id a) log) by set_solver.
      simpl. lia.
    + rewrite Exists_sameKey_questionsOf in Hnew.
      rewrite size_union by set_solver. rewrite size_singleton.
      unfold ofUser at 1. rewrite filter_cons, filter_nil, decide_True by done.
      simpl. lia.
  - replace (ofUser u (if decide (Exists (sameKey a) log) then [] else [a]))
      with (@nil AnswerRow); [simpl; lia|].
    destruct (decide _); [done|].
    unfold ofUser. by rewrite filter_cons, filter_nil, decide_False.
Qed.

Lemma leaderboardData_elem_of (scores : list (string * UserData)) (e : LeaderboardEntry) :
  e ∈ leaderboardData scores ->
  exists i u d, (u, d) ∈ scores /\ e = withRank i (toEntry (u, d)).
Proof.
  intros (i & Hi)%list_elem_of_lookup_1.
  apply leaderboardData_lookup in Hi as (entry & Hentry & ->).
  apply list_elem_of_lookup_2, subseteq_take in Hentry.
  unfold sortedEntries in Hentry. rewrite sort_Permutation in Hentry.
  apply list_elem_of_fmap in Hentry as ([u d] & -> & Hin).
  eauto.
Qed.

(** Every user of the log has an entry among the scores, and the
    aggregation succeeds when every row carries its joined profile. *)
Lemma aggregate_returns (log : list AnswerRow) :
  Forall (fun a => is_Some (profiles a)) log ->
  exists scores, aggregate log = Return scores.
Proof.
  intros Hall. unfold aggregate. generalize (@nil (string * UserData)).
  induction Hall as [|a log [p Hp] _ IH]; intros acc; simpl; [eauto|].
  assert (exists acc', countAnswer acc a = Return acc') as [acc' ->].
  { unfold countAnswer. rewrite Hp.
    destruct (get acc (user_id a)) as [d|] eqn:Hget; cbn.
    - rewrite Hget. destruct (decide _); eauto.
    - rewrite get_set_eq. destruct (decide _); eauto. }
  cbn. apply IH.
Qed.


(** At 11 the two roundings leave the double one unit in the last place
    above 220: it prints as 220.00000000000003. *)
Lemma scoreOf_eleven :
  scoreOf 11 = S754_finite false 7740561859543041 (-45)
  /\ ~ (valueOf (scoreOf 11) == 220)%Q.
Proof. split; [by vm_compute|]. vm_compute. discriminate. Qed.





(** ** Duplicate records *)

Lemma sameKey_sym (a b : AnswerRow) : sameKey a b -> sameKey b a.
Proof. intros [? ?]. by split. Qed.

Lemma sameKey_trans (a b c : AnswerRow) : sameKey a b -> sameKey b c -> sameKey a c.
Proof. intros [? ?] [? ?]. split; congruence. Qed.

Lemma firstRecordsAfter_fresh (earlier log : list AnswerRow) (x : AnswerRow) :
  x ∈ firstRecordsAfter earlier log -> ~ Exists (sameKey x) earlier.
Proof.
  revert earlier. induction log as [|a log IH]; intros earlier; simpl.
  - by intros ?%elem_of_nil.
  - rewrite elem_of_app. intros [Hx | Hx].
    + destruct (decide (Exists (sameKey a) earlier)) as [|Hnew];
        [by apply elem_of_nil in Hx|].
      apply list_elem_of_singleton in Hx. by subst.
    + intros Hex. apply (IH _ Hx). apply Exists_app. by left.
Qed.

(** Every (user, question) pair of the log has exactly one first record. *)
Lemma firstRecords_once (log : list AnswerRow) (a : AnswerRow) :
  a ∈ log -> length (filter (sameKey a) (firstRecords log)) = 1%nat.
Proof.
  revert a. induction log as [|b log IH] using rev_ind; intros a;
    [by intros ?%elem_of_nil|].
  rewrite firstRecords_snoc, filter_app, length_app.
  intros Ha. destruct (decide (Exists (sameKey b) log)) as [Hdup|Hnew].
  - rewrite filter_nil. simpl. rewrite Nat.add_0_r.
    apply elem_of_app in Ha as [Ha | ->%list_elem_of_singleton]; [by apply IH|].
    apply Exists_exists in Hdup as (c & Hc & Hbc).
    rewrite (list_filter_iff (sameKey b) (sameKey c)); [by apply IH|].
    intros x. split; intros Hx.
    + eapply sameKey_trans; [apply sameKey_sym; exact Hbc | exact Hx].
    + eapply sameKey_trans; [exact Hbc | exact Hx].
  - rewrite filter_cons, filter_nil.
    apply elem_of_app in Ha as [Ha | ->%list_elem_of_singleton].
    + rewrite (IH a Ha). rewrite decide_False; [done|].
      intros Hab. apply Hnew. apply Exists_exists. exists a.
      split; [done | by apply sameKey_sym].
    + rewrite decide_True by done.
      replace (filter (sameKey b) (firstRecords log)) with (@nil AnswerRow); [done|].
      symmetry. apply elem_of_nil_inv. intros x [Hbx Hx]%list_elem_of_filter.
      apply Hnew. apply Exists_exists. exists x. split; [|done].
      by eapply firstRecordsAfter_elem_of.
Qed.

Lemma countAnswer_duplicate (log : list AnswerRow) (acc : list (string * UserData))
    (a : AnswerRow) :
  agrees log acc -> Exists (sameKey a) log -> countAnswer acc a = Return acc.
Proof.
  intros [_ Hinv] Hdup. specialize (Hinv (user_id a)).
  pose proof (proj1 (Exists_sameKey_questionsOf a log) Hdup) as Hq.
  destruct (get acc (user_id a)) as [d|] eqn:Hget.
  - destruct Hinv as (_ & _ & _ & Hids).
    unfold countAnswer. rewrite Hget. cbn. rewrite Hget.
    rewrite decide_True; [done|]. by rewrite Hids.
  - unfold questionsOf in Hq. rewrite Hinv in Hq. set_solver.
Qed.

Lemma forEach_app (l1 l2 : list AnswerRow) (acc : list (string * UserData)) :
  forEach (l1 ++ l2) acc = (acc' ← forEach l1 acc; forEach l2 acc').
Proof.
  revert acc. induction l1 as [|a l1 IH]; intros acc; simpl; [done|].
  destruct (countAnswer acc a) as [acc'|m]; cbn; [apply IH | done].
Qed.

(** A record that repeats an earlier (user, question) pair changes
    nothing: the log without it aggregates to the same result. *)
Lemma later_duplicate_ignored (l1 l2 l3 : list AnswerRow) (r r' : AnswerRow) :
  sameKey r r' ->
  aggregate (l1 ++ r :: l2 ++ r' :: l3) = aggregate (l1 ++ r :: l2 ++ l3).
Proof.
  intros Hsame. unfold aggregate.
  replace (l1 ++ r :: l2 ++ r' :: l3) with ((l1 ++ r :: l2) ++ r' :: l3)
    by (by rewrite <- app_assoc).
  replace (l1 ++ r :: l2 ++ l3) with ((l1 ++ r :: l2) ++ l3)
    by (by rewrite <- app_assoc).
  rewrite (forEach_app (l1 ++ r :: l2) (r' :: l3)), (forEach_app (l1 ++ r :: l2) l3).
  destruct (forEach (l1 ++ r :: l2) []) as [acc|m] eqn:Hrun; cbn; [|done].
  rewrite (countAnswer_duplicate (l1 ++ r :: l2) acc r'); [reflexivity | |].
  - by apply aggregate_agrees.
  - apply Exists_exists. exists r. split; [set_solver | by apply sameKey_sym].
Qed.

Lemma aggregate_summary (log : list AnswerRow) (scores : list (string * UserData))
    (u : string) (d : UserData) :
  aggregate log = Return scores ->
  get scores u = Some d ->
  correct d = Z.of_nat (length (ofUser u (firstRecords log)))
  /\ totalTime d = sumTimes (ofUser u (firstRecords log))
  /\ questionIds d = questionsOf u log.
Proof.
  intros [_ Hinv]%aggregate_agrees Hget. specialize (Hinv u).
  rewrite Hget in Hinv. tauto.
Qed.

Lemma aggregate_covers (log : list AnswerRow) (scores : list (string * UserData))
    (a : AnswerRow) :
  aggregate log = Return scores -> a ∈ log -> is_Some (get scores (user_id a)).
Proof.
  intros [_ Hinv]%aggregate_agrees Ha. specialize (Hinv (user_id a)).
  destruct (get scores (user_id a)) as [d|]; [eauto|].
  assert (a ∈ ofUser (user_id a) log) as Hin by (by apply list_elem_of_filter).
  rewrite Hinv in Hin. by apply elem_of_nil in Hin.
Qed.

(** [C5] Whatever the log, and so for a log with several records of one
    (user, question) pair: the user's correct count is the number of
    distinct questions among the user's records, and the count and the
    total time are the length and the sum of times of a list that holds
    exactly one record of every (user, question) pair of the log. *)
Theorem duplicates_count_once (log : list AnswerRow) (scores : list (string * UserData)) :
  aggregate log = Return scores ->
  (forall a, a ∈ log ->
     length (filter (sameKey a) (firstRecords log)) = 1%nat
     /\ exists d,
          get scores (user_id a) = Some d
          /\ correct d = Z.of_nat (size (questionsOf (user_id a) log))
          /\ correct d = Z.of_nat (length (ofUser (user_id a) (firstRecords log)))
          /\ totalTime d = sumTimes (ofUser (user_id a) (firstRecords log)))
  /\ (forall u d, get scores u = Some d ->
        correct d = Z.of_nat (size (questionsOf u log))
        /\ correct d = Z.of_nat (length (ofUser u (firstRecords log)))
        /\ totalTime d = sumTimes (ofUser u (firstRecords log))).
Proof.
  intros Hrun.
  assert (forall u d, get scores u = Some d ->
        correct d = Z.of_nat (size (questionsOf u log))
        /\ correct d = Z.of_nat (length (ofUser u (firstRecords log)))
        /\ totalTime d = sumTimes (ofUser u (firstRecords log))) as Hall.
  { intros u d Hget.
    destruct (aggregate_summary log scores u d Hrun Hget) as (Hc & Ht & _).
    rewrite <- length_firstRecords_ofUser. done. }
  split; [|exact Hall].
  intros a Ha. split; [by apply firstRecords_once|].
  destruct (aggregate_covers log scores a Hrun Ha) as [d Hd].
  exists d. split; [done|]. by apply Hall.
Qed.

Lemma duplicates_count_once_witness :
  exists scores d,
    aggregate fastThenSlow = Return scores
    /\ get scores "u1" = Some d
    /\ correct d = 1 /\ totalTime d = 3
    /\ length (filter (sameKey (row "u1" "q1" 9 "Ann")) (firstRecords fastThenSlow)) = 1%nat.
Proof.
  destruct (aggregate_returns fastThenSlow) as [scores Hrun].
  { repeat constructor; by eexists. }
  destruct (proj1 (duplicates_count_once fastThenSlow scores Hrun)
              (row "u1" "q1" 9 "Ann")) as (Honce & d & Hd & Hc & _ & Ht).
  { set_solver. }
  exists scores, d. split; [done|]. split; [exact Hd|].
  split; [rewrite Hc; by vm_compute|]. split; [rewrite Ht; by vm_compute|]. exact Honce.
Defined.

(** [C10] The total time of a user is the sum of the times of the first
    records: a record is one of them exactly when no earlier record has
    its user and question, so a later duplicate adds nothing and the log
    without it aggregates to the same result. Which duplicate comes first
    decides the time: two logs with the same records in another order
    give 3 and 9 seconds. *)
Theorem first_duplicate_sets_the_time :
  (forall (log : list AnswerRow) (scores : list (string * UserData)) (u : string)
          (d : UserData),
      aggregate log = Return scores ->
      get scores u = Some d ->
      totalTime d = sumTimes (ofUser u (firstRecords log)))
  /\ (forall (l1 l2 : list AnswerRow) (a : AnswerRow),
        firstRecords (l1 ++ a :: l2)
        = firstRecords l1
            ++ (if decide (Exists (sameKey a) l1) then [] else [a])
            ++ firstRecordsAfter (l1 ++ [a]) l2
        /\ forall x, x ∈ firstRecordsAfter (l1 ++ [a]) l2 -> ~ sameKey x a)
  /\ (forall (l1 l2 l3 : list AnswerRow) (r r' : AnswerRow),
        sameKey r r' ->
        aggregate (l1 ++ r :: l2 ++ r' :: l3) = aggregate (l1 ++ r :: l2 ++ l3))
  /\ (fastThenSlow ≡ₚ slowThenFast
      /\ exists scores1 scores2 d1 d2,
           aggregate fastThenSlow = Return scores1
           /\ aggregate slowThenFast = Return scores2
           /\ get scores1 "u1" = Some d1 /\ totalTime d1 = 3
           /\ get scores2 "u1" = Some d2 /\ totalTime d2 = 9).
Proof.
  split; [|split; [|split]].
  - intros log scores u d Hrun Hget.
    by destruct (aggregate_summary log scores u d Hrun Hget) as (_ & Ht & _).
  - intros l1 l2 a. split.
    + unfold firstRecords. rewrite firstRecordsAfter_app. simpl. done.
    + intros x Hx%firstRecordsAfter_fresh Hxa. apply Hx.
      apply Exists_app. right. by constructor.
  - apply later_duplicate_ignored.
  - split.
    + unfold fastThenSlow, slowThenFast.
      change [row "u1" "q1" 3 "Ann"; row "u2" "q1" 5 "Bob"; row "u1" "q1" 9 "Ann"]
        with ([row "u1" "q1" 3 "Ann"] ++ [row "u2" "q1" 5 "Bob"] ++ [row "u1" "q1" 9 "Ann"]).
      change [row "u1" "q1" 9 "Ann"; row "u2" "q1" 5 "Bob"; row "u1" "q1" 3 "Ann"]
        with ([row "u1" "q1" 9 "Ann"] ++ [row "u2" "q1" 5 "Bob"] ++ [row "u1" "q1" 3 "Ann"]).
      rewrite (Permutation_app_comm [row "u1" "q1" 3 "Ann"]).
      rewrite (Permutation_app_comm [row "u2" "q1" 5 "Bob"]).
      by rewrite <- app_assoc.
    + eexists _, _, _, _. repeat split; reflexivity.
Qed.

Lemma first_duplicate_sets_the_time_witness :
  aggregate ([] ++ row "u1" "q1" 3 "Ann" :: [row "u2" "q1" 5 "Bob"]
                ++ row "u1" "q1" 9 "Ann" :: [])
  = aggregate ([] ++ row "u1" "q1" 3 "Ann" :: [row "u2" "q1" 5 "Bob"] ++ []).
Proof.
  apply (proj1 (proj2 (proj2 first_duplicate_sets_the_time))).
  split; reflexivity.
Defined.

(** ** Loading: pagination and retries *)

Lemma loadLeaderboard_unfold (store : nat -> nat -> nat -> Batch) (fuel retryCount : nat)
    (st : State) :
  loadLeaderboard store fuel retryCount st
  = match attempt (store retryCount) fuel with
    | None => None
    | Some (Return data) => Some (finally retryCount (succeeded data (started st)), [])
    | Some (Throw message) =>
        if decide (retryCount < 3)%nat then
          match loadLeaderboard store fuel (retryCount + 1)
                  (finally retryCount (failed message (started st))) with
          | Some (st', effects) =>
              Some (st', SetTimeout (2 ^ Z.of_nat retryCount * 1000) :: effects)
          | None => None
          end
        else Some (finally retryCount (failed message (started st)), [])
    end.
Proof.
  rewrite loadLeaderboard_equation_1.
  destruct (attempt (store retryCount) fuel) as [[data|message]|].
  - by rewrite loadLeaderboard_clause_1_equation_1.
  - rewrite loadLeaderboard_clause_1_equation_2.
    destruct (lt_dec retryCount 3) as [Hlt|Hge].
    + rewrite loadLeaderboard_clause_1_clause_3_equation_1.
      by rewrite decide_True.
    + rewrite loadLeaderboard_clause_1_clause_3_equation_2.
      by rewrite decide_False.
  - by rewrite loadLeaderboard_clause_1_equation_3.
Qed.

(** The retries are bounded: the timers set are an initial part of the
    schedule 1 s, 2 s, 4 s. *)
Lemma retry_timers_bounded (store : nat -> nat -> nat -> Batch) (fuel retryCount : nat)
    (st st' : State) (effects : list Effect) :
  loadLeaderboard store fuel retryCount st = Some (st', effects) ->
  effects `prefix_of` backoff retryCount.
Proof.
  remember (3 - retryCount)%nat as m eqn:Hm.
  revert retryCount st st' effects Hm.
  induction m as [|m IH]; intros retryCount st st' effects Hm;
    rewrite loadLeaderboard_unfold;
    destruct (attempt (store retryCount) fuel) as [[data|message]|]; try discriminate;
    try (intros [= <- <-]; apply prefix_nil).
  - rewrite decide_False by lia. intros [= <- <-]. apply prefix_nil.
  - rewrite decide_True by lia.
    destruct (loadLeaderboard store fuel (retryCount + 1) _) as [[st1 effects1]|] eqn:Hnext;
      [|discriminate].
    intros [= <- <-]. apply IH in Hnext; [|lia].
    unfold backoff in *. replace (3 - retryCount)%nat with (S (3 - (retryCount + 1))) by lia.
    rewrite <- cons_seq, fmap_cons. replace (S retryCount) with (retryCount + 1)%nat by lia.
    by apply prefix_cons.
Qed.

Lemma backoff_schedule : backoff 0 = [SetTimeout 1000; SetTimeout 2000; SetTimeout 4000].
Proof. reflexivity. Qed.

(** When every call fails outside the read, the load stops after three
    retries with the error message set. *)
Lemma retries_exhausted (store : nat -> nat -> nat -> Batch) (fuel : nat) (st : State)
    (m0 m1 m2 m3 : string) :
  attempt (store 0%nat) fuel = Some (Throw m0) ->
  attempt (store 1%nat) fuel = Some (Throw m1) ->
  attempt (store 2%nat) fuel = Some (Throw m2) ->
  attempt (store 3%nat) fuel = Some (Throw m3) ->
  loadLeaderboard store fuel 0 st
  = Some ({| leaderboard := leaderboard st;
             isLeaderboardLoading := false;
             leaderboardError := Some (errorMessage m3) |},
          [SetTimeout 1000; SetTimeout 2000; SetTimeout 4000]).
Proof.
  intros H0 H1 H2 H3.
  rewrite loadLeaderboard_unfold, H0. simpl.
  rewrite loadLeaderboard_unfold, H1. simpl.
  rewrite loadLeaderboard_unfold, H2. simpl.
  rewrite loadLeaderboard_unfold, H3. simpl.
  reflexivity.
Qed.

(** A failure outside the read, twice, then a success: two timers, and
    the leaderboard of the successful call. *)
Lemma retries_recover (store : nat -> nat -> nat -> Batch) (fuel : nat) (st : State)
    (m0 m1 : string) (data : list LeaderboardEntry) :
  attempt (store 0%nat) fuel = Some (Throw m0) ->
  attempt (store 1%nat) fuel = Some (Throw m1) ->
  attempt (store 2%nat) fuel = Some (Return data) ->
  loadLeaderboard store fuel 0 st
  = Some ({| leaderboard := data; isLeaderboardLoading := true; leaderboardError := None |},
          [SetTimeout 1000; SetTimeout 2000]).
Proof.
  intros H0 H1 H2.
  rewrite loadLeaderboard_unfold, H0. simpl.
  rewrite loadLeaderboard_unfold, H1. simpl.
  rewrite loadLeaderboard_unfold, H2. simpl.
  reflexivity.
Qed.

(** The read stops at the first failing batch and keeps what it has. *)
Lemma fetchAll_stops_at_failure (fetch : nat -> nat -> Batch)
    (pages : nat -> list AnswerRow) (stop fuel page : nat) (allAnswers : list AnswerRow) :
  (forall j, (page <= j < stop)%nat ->
     fetch (j * PAGE_SIZE)%nat ((j + 1) * PAGE_SIZE - 1)%nat = BatchData (Some (pages j))
     /\ (PAGE_SIZE <= length (pages j))%nat) ->
  fetch (stop * PAGE_SIZE)%nat ((stop + 1) * PAGE_SIZE - 1)%nat = BatchError ->
  (page <= stop)%nat ->
  (stop - page < fuel)%nat ->
  fetchAll fetch fuel page allAnswers
  = Some (allAnswers ++ concat (pages <$> seq page (stop - page))).
Proof.
  revert page allAnswers.
  induction fuel as [|fuel IH]; intros page allAnswers Hfull Hfail Hle Hfuel; [lia|].
  simpl. destruct (decide (page = stop)) as [->|Hne].
  - rewrite Hfail. rewrite Nat.sub_diag. simpl. by rewrite app_nil_r.
  - destruct (Hfull page) as [-> Hlen]; [lia|].
    unfold PAGE_SIZE in Hlen.
    rewrite (proj2 (Nat.ltb_lt _ _)) by lia.
    rewrite (proj2 (Nat.ltb_ge _ _)) by (unfold PAGE_SIZE; lia).
    rewrite IH; [|intros j Hj; apply Hfull; lia | done | lia | lia].
    replace (stop - page)%nat with (S (stop - S page)) by lia.
    rewrite <- cons_seq, fmap_cons. simpl. by rewrite <- app_assoc.
Qed.

(** [C8], the code at a failing read. When a batch read fails, on the
    first page or on a later one, the call carries on with the records
    read before it: it sets the leaderboard computed from them, reports
    no error and sets no timer, so the load is not retried. *)
Theorem read_failure_is_not_retried (store : nat -> nat -> nat -> Batch)
    (pages : nat -> list AnswerRow) (stop fuel : nat) (st : State)
    (scores : list (string * UserData)) :
  (forall j, (j < stop)%nat ->
     store 0%nat (j * PAGE_SIZE)%nat ((j + 1) * PAGE_SIZE - 1)%nat
     = BatchData (Some (pages j))
     /\ (PAGE_SIZE <= length (pages j))%nat) ->
  store 0%nat (stop * PAGE_SIZE)%nat ((stop + 1) * PAGE_SIZE - 1)%nat = BatchError ->
  (stop < fuel)%nat ->
  aggregate (concat (pages <$> seq 0 stop)) = Return scores ->
  loadLeaderboard store fuel 0 st
  = Some ({| leaderboard := leaderboardData scores;
             isLeaderboardLoading := true;
             leaderboardError := None |}, []).
Proof.
  intros Hfull Hfail Hfuel Hagg.
  rewrite loadLeaderboard_unfold. unfold attempt.
  rewrite (fetchAll_stops_at_failure (store 0%nat) pages stop fuel 0 []);
    [|intros j Hj; apply Hfull; lia | done | lia | lia].
  rewrite Nat.sub_0_r. simpl. rewrite Hagg. reflexivity.
Qed.

Lemma read_failure_is_not_retried_witness :
  loadLeaderboard unreachableStore 1 0 emptyState
  = Some ({| leaderboard := leaderboardData [];
             isLeaderboardLoading := true;
             leaderboardError := None |}, []).
Proof.
  apply (read_failure_is_not_retried unreachableStore (fun _ => []) 0 1 emptyState []).
  - intros j Hj. lia.
  - reflexivity.
  - lia.
  - reflexivity.
Defined.

Lemma broken_join_exhausts_retries :
  loadLeaderboard brokenJoinStore 1 0 emptyState
  = Some ({| leaderboard := []; isLeaderboardLoading := false;
             leaderboardError := Some "TypeError" |},
          [SetTimeout 1000; SetTimeout 2000; SetTimeout 4000]).
Proof. by vm_compute. Qed.

End NavbarProofs.

(** * Further properties of the competition page *)

Module CompetitionMore.
Import Competition CompetitionProofs.

(** ** The progress built on load *)

Lemma foldl_recordAnswer_snoc (rows : list UserAnswer) (a : UserAnswer)
    (acc : gmap string Outcome * list string) :
  foldl recordAnswer acc (rows ++ [a]) = recordAnswer (foldl recordAnswer acc rows) a.
Proof. by rewrite foldl_app. Qed.

Lemma recorded_answers (rows : list UserAnswer) (questionId : string) :
  fst (foldl recordAnswer (∅, []) rows) !! questionId
  = outcomeOf <$> last (filter (fun a => question_id a = questionId) rows).
Proof.
  induction rows as [|a rows IH] using rev_ind; [done|].
  rewrite foldl_recordAnswer_snoc, filter_app, filter_cons, filter_nil.
  unfold recordAnswer at 1. cbn [fst].
  destruct (decide (question_id a = questionId)) as [<-|Hne].
  - rewrite lookup_insert_eq, last_snoc. done.
  - rewrite lookup_insert_ne by done. by rewrite app_nil_r.
Qed.

Lemma recorded_completed (rows : list UserAnswer) :
  snd (foldl recordAnswer (∅, []) rows)
  = question_id <$> filter (fun a => is_correct a = true) rows.
Proof.
  induction rows as [|a rows IH] using rev_ind; [done|].
  rewrite foldl_recordAnswer_snoc, filter_app, filter_cons, filter_nil, fmap_app.
  unfold recordAnswer at 1. cbn [snd]. rewrite IH.
  destruct (is_correct a) eqn:E.
  - by rewrite decide_True.
  - rewrite decide_False by done. by rewrite app_nil_r.
Qed.

(** [X1] The progress built on load. For every question id the answer
    map holds the outcome of the last row for that id, and none when no
    row has it; the completed list is the ids of the rows flagged correct,
    in row order, once per row. So an id whose first row is correct and
    whose last row is not is listed as completed while its recorded
    outcome is incorrect. *)
Theorem progress_records_last_row (questionsData : list Question) (rows : list UserAnswer) :
  (forall questionId : string,
      answers (computeProgress questionsData (Some rows)) !! questionId
      = outcomeOf <$> last (filter (fun a => question_id a = questionId) rows))
  /\ completedQuestions (computeProgress questionsData (Some rows))
     = question_id <$> filter (fun a => is_correct a = true) rows
  /\ (forall (first final : UserAnswer) (between : list UserAnswer),
        rows = first :: between ++ [final] ->
        question_id first = question_id final ->
        is_correct first = true ->
        is_correct final = false ->
        question_id final ∈ completedQuestions (computeProgress questionsData (Some rows))
        /\ exists o, answers (computeProgress questionsData (Some rows)) !! question_id final
                     = Some o /\ isCorrect o = false).
Proof.
  split; [|split].
  - intros questionId. apply recorded_answers.
  - apply recorded_completed.
  - intros first final between -> Hid Hfirst Hfinal. split.
    + unfold computeProgress. cbn [completedQuestions].
      rewrite recorded_completed, filter_cons, decide_True by done.
      rewrite fmap_cons, Hid. apply elem_of_cons. by left.
    + exists (outcomeOf final). split; [|exact Hfinal].
      unfold computeProgress. cbn [answers]. rewrite recorded_answers.
      change (first :: between ++ [final]) with ((first :: between) ++ [final]).
      rewrite filter_app.
      assert (filter (fun a => question_id a = question_id final) [final] = [final]) as ->.
      { by rewrite filter_cons, filter_nil, decide_True. }
      by rewrite last_snoc.
Qed.

Lemma progress_records_last_row_witness :
  "q1" ∈ completedQuestions (computeProgress fourQuestions
            (Some [ {| question_id := "q1"; user_answer := ".-"; is_correct := true;
                       answered_at := 1 |};
                    {| question_id := "q1"; user_answer := ".."; is_correct := false;
                       answered_at := 2 |} ]))
  /\ exists o, answers (computeProgress fourQuestions
            (Some [ {| question_id := "q1"; user_answer := ".-"; is_correct := true;
                       answered_at := 1 |};
                    {| question_id := "q1"; user_answer := ".."; is_correct := false;
                       answered_at := 2 |} ])) !! "q1" = Some o /\ isCorrect o = false.
Proof.
  apply (proj2 (proj2 (progress_records_last_row fourQuestions _))
           {| question_id := "q1"; user_answer := ".-"; is_correct := true; answered_at := 1 |}
           {| question_id := "q1"; user_answer := ".."; is_correct := false; answered_at := 2 |}
           []); reflexivity.
Defined.


(** ** The gate is kept *)

Lemma outcomes_exclusive (answers : gmap string Outcome) (q : Question) :
  hasCorrectOutcome answers q -> lacksCorrectOutcome answers q -> False.
Proof.
  intros (o & Ho & Hc) [Hnone | (o' & Ho' & Hc')]; congruence.
Qed.

(** Where the loop of the load stops. *)
Lemma scanQuestions_stop (questionsData : list Question) (answers : gmap string Outcome)
    (n i : nat) (cur : Z) :
  (i + n = length questionsData)%nat ->
  (0 < n)%nat ->
  (forall j q, (j < i)%nat -> questionsData !! j = Some q -> hasCorrectOutcome answers q) ->
  exists r : nat,
    scanQuestions questionsData answers n i cur = Z.of_nat r
    /\ (r < length questionsData)%nat
    /\ (forall j q, (j < r)%nat -> questionsData !! j = Some q -> hasCorrectOutcome answers q)
    /\ ((exists q, questionsData !! r = Some q /\ lacksCorrectOutcome answers q)
        \/ (S r = length questionsData
            /\ forall q, q ∈ questionsData -> hasCorrectOutcome answers q)).
Proof.
  revert i cur. induction n as [|n IH]; intros i cur Hlen Hn Hbefore; [lia|].
  assert (is_Some (questionsData !! i)) as [qi Hqi] by (apply lookup_lt_is_Some; lia).
  simpl. rewrite Hqi.
  destruct (notAnsweredCorrectly answers qi) eqn:Hbad.
  - exists i. split; [done|]. split; [lia|]. split; [done|].
    left. exists qi. split; [done|]. by apply notAnsweredCorrectly_true.
  - apply notAnsweredCorrectly_false in Hbad.
    assert (forall j q, (j < S i)%nat -> questionsData !! j = Some q ->
                        hasCorrectOutcome answers q) as Hbefore'.
    { intros j q Hj Hq. destruct (decide (j = i)) as [->|Hne].
      - rewrite Hqi in Hq. by injection Hq as <-.
      - apply (Hbefore j); [lia | done]. }
    destruct n as [|n].
    + simpl. rewrite (proj2 (Z.eqb_eq _ _)) by lia.
      exists i. split; [lia|]. split; [lia|]. split; [done|].
      right. split; [lia|]. intros q (j & Hj)%list_elem_of_lookup_1.
      apply (Hbefore' j); [|done]. apply lookup_lt_Some in Hj. lia.
    + apply IH; [lia | lia | done].
Qed.

Lemma computeProgress_index (questionsData : list Question)
    (userAnswers : option (list UserAnswer)) :
  progressIndex (computeProgress questionsData userAnswers)
  = findCurrentQuestionIndex questionsData
      (answers (computeProgress questionsData userAnswers)).
Proof.
  destruct userAnswers as [rows|]; [reflexivity|].
  simpl. unfold findCurrentQuestionIndex.
  destruct questionsData as [|q qs]; [reflexivity|].
  simpl. unfold notAnsweredCorrectly. rewrite lookup_empty. reflexivity.
Qed.

Lemma findCurrentQuestionIndex_stop (questionsData : list Question)
    (answers : gmap string Outcome) :
  questionsData <> [] ->
  exists r : nat,
    findCurrentQuestionIndex questionsData answers = Z.of_nat r
    /\ (r < length questionsData)%nat
    /\ (forall j q, (j < r)%nat -> questionsData !! j = Some q -> hasCorrectOutcome answers q)
    /\ ((exists q, questionsData !! r = Some q /\ lacksCorrectOutcome answers q)
        \/ (S r = length questionsData
            /\ forall q, q ∈ questionsData -> hasCorrectOutcome answers q)).
Proof.
  intros Hne. apply scanQuestions_stop.
  - lia.
  - destruct questionsData; [done | simpl; lia].
  - intros j q Hj. lia.
Qed.

Lemma gated_accessible (st : State) :
  gated st -> canAccessQuestion st (currentQuestionIndex st) = Return (JBool true).
Proof.
  intros [[Hnil ->] | [Hrange Hbefore]]; [reflexivity|].
  destruct (decide (currentQuestionIndex st = 0)) as [->|Hne]; [reflexivity|].
  apply canAccessQuestion_true_iff; [done|].
  destruct (index_in_range (questions st) (currentQuestionIndex st - 1)) as [q Hq]; [lia|].
  exists q. split; [done|].
  unfold index in Hq. rewrite (proj2 (Z.ltb_ge _ _)) in Hq by lia.
  apply (Hbefore _ q) in Hq; [done | lia].
Qed.

Lemma gated_loaded (questionsData : list Question) (userAnswers : option (list UserAnswer))
    (now : Z) (st : State) :
  gated (fst (fetchQuestionsAndProgress (Data (Some questionsData)) (Data userAnswers)
                now st)).
Proof.
  unfold gated. simpl. rewrite computeProgress_index.
  destruct (decide (questionsData = [])) as [->|Hne]; [by left|].
  right.
  destruct (findCurrentQuestionIndex_stop questionsData
              (answers (computeProgress questionsData userAnswers)) Hne)
    as (r & -> & Hr & Hbefore & _).
  split; [lia|]. intros j q Hj. apply Hbefore. lia.
Qed.

Lemma distinct_ids (qs : list Question) (i j : nat) (q q' : Question) :
  NoDup (id <$> qs) -> qs !! i = Some q -> qs !! j = Some q' -> id q = id q' -> i = j.
Proof.
  intros Hnodup Hi Hj Hid.
  apply (NoDup_lookup (id <$> qs) i j (id q)); [done | |].
  - by rewrite list_lookup_fmap, Hi.
  - by rewrite list_lookup_fmap, Hj, Hid.
Qed.

(** What a call of [handleSubmit] that returns does to the state. *)
Lemma handleSubmit_cases (env : Env) (st st' : State) (effects : list Effect) :
  handleSubmit env st = Return (st', effects) ->
  (st' = st /\ (effects = [ShowToast EnterAnswer] \/ effects = []
                \/ exists r, effects = [Upsert r; ShowToast SaveFailed]))
  \/ exists (q : Question) (startTime : Z) (userId : string),
       index (questions st) (currentQuestionIndex st) = Some q
       /\ questionStartTime st = Some startTime
       /\ user env = Some userId
       /\ trim (morseInput st) <> ""
       /\ upsertFails env = false
       /\ questions st' = questions st
       /\ loading st' = loading st
       /\ answers (userProgress st')
          = <[id q := {| answer := trim (morseInput st);
                         isCorrect := checkAnswer (morseInput st) q;
                         timestamp := endTime env |}]> (answers (userProgress st))
       /\ (if checkAnswer (morseInput st) q
           then completedQuestions (userProgress st')
                = uniq (completedQuestions (userProgress st) ++ [id q])
                /\ (if currentQuestionIndex st <? Z.of_nat (length (questions st)) - 1
                    then currentQuestionIndex st' = currentQuestionIndex st + 1
                         /\ morseInput st' = ""
                         /\ questionStartTime st' = Some (restartTime env)
                    else currentQuestionIndex st' = currentQuestionIndex st
                         /\ morseInput st' = morseInput st
                         /\ questionStartTime st' = questionStartTime st)
           else completedQuestions (userProgress st') = completedQuestions (userProgress st)
                /\ currentQuestionIndex st' = currentQuestionIndex st
                /\ morseInput st' = morseInput st
                /\ questionStartTime st' = questionStartTime st).
Proof.
  unfold handleSubmit.
  destruct (String.eqb_spec (trim (morseInput st)) "") as [Hblank|Hinput].
  { intros [= <- <-]. left. auto. }
  destruct (questionStartTime st) as [startTime|] eqn:Hstart;
    [|intros [= <- <-]; left; auto].
  destruct (user env) as [userId|] eqn:Huser; [|intros [= <- <-]; left; auto].
  destruct (length (questions st) =? 0)%nat; [intros [= <- <-]; left; auto|].
  destruct (index (questions st) (currentQuestionIndex st)) as [q|] eqn:Hq; [|discriminate].
  destruct (upsertFails env) eqn:Hfail.
  { intros [= <- <-]. left. split; [done|]. right. right. eauto. }
  intros Hrun. right. exists q, startTime, userId.
  do 5 (split; [done|]).
  destruct (checkAnswer (morseInput st) q).
  - destruct (currentQuestionIndex st <? Z.of_nat (length (questions st)) - 1);
      injection Hrun as <- <-; simpl; rewrite ?Hstart; auto 10.
  - injection Hrun as <- <-. simpl. rewrite ?Hstart. auto 10.
Qed.

Lemma handleSubmit_gated (env : Env) (st st' : State) (effects : list Effect) :
  NoDup (id <$> questions st) ->
  gated st ->
  handleSubmit env st = Return (st', effects) ->
  gated st'.
Proof.
  intros Hnodup Hgated Hrun.
  destruct (handleSubmit_cases env st st' effects Hrun)
    as [[-> _] | (q & startTime & userId & Hq & _ & _ & _ & _ & Hqs & _ & Hans & Hrest)];
    [done|].
  pose proof (index_Some_range _ _ _ Hq) as Hrange.
  unfold index in Hq. rewrite (proj2 (Z.ltb_ge _ _)) in Hq by lia.
  destruct Hgated as [[Hnil _] | [_ Hbefore]].
  { rewrite Hnil in Hrange. simpl in Hrange. lia. }
  right. rewrite Hqs, Hans.
  destruct (checkAnswer (morseInput st) q) eqn:Hcheck.
  - destruct Hrest as [_ Hrest].
    assert (forall j q', Z.of_nat j < currentQuestionIndex st + 1 ->
              questions st !! j = Some q' ->
              hasCorrectOutcome
                (<[id q := {| answer := trim (morseInput st); isCorrect := true;
                              timestamp := endTime env |}]> (answers (userProgress st))) q')
      as Hbefore'.
    { intros j q' Hj Hq'. unfold hasCorrectOutcome.
      destruct (decide (id q = id q')) as [Heq|Hne].
      - rewrite Heq, lookup_insert_eq. eauto.
      - rewrite lookup_insert_ne by done. apply (Hbefore j); [|done].
        destruct (decide (Z.of_nat j = currentQuestionIndex st)) as [Hj'|]; [|lia].
        exfalso. apply Hne. replace (Z.to_nat (currentQuestionIndex st)) with j in Hq by lia.
        congruence. }
    destruct (Z.ltb_spec (currentQuestionIndex st) (Z.of_nat (length (questions st)) - 1));
      destruct Hrest as (-> & _).
    + split; [lia | exact Hbefore'].
    + split; [lia|]. intros j q' Hj. apply Hbefore'. lia.
  - destruct Hrest as (_ & -> & _). split; [lia|].
    intros j q' Hj Hq'. unfold hasCorrectOutcome.
    rewrite lookup_insert_ne; [by apply (Hbefore j)|].
    intros Hid.
    assert (Z.to_nat (currentQuestionIndex st) = j) by (by eapply distinct_ids).
    lia.
Qed.

Lemma goBack_gated (st : State) : gated st -> gated (goBack st).
Proof.
  intros [[Hnil Hidx] | [Hrange Hbefore]]; unfold gated; simpl.
  - left. rewrite Hidx. done.
  - right. split; [lia|]. intros j q Hj. apply Hbefore. lia.
Qed.

Lemma act_gated (st : State) (a : Action) :
  NoDup (id <$> questions st) -> gated st -> gated (act st a).
Proof.
  intros Hnodup Hgated. destruct a as [k|env|]; simpl.
  - destruct (press_frame st k) as (Hq & Hi & Hp & _).
    unfold gated. rewrite Hq, Hi, Hp. exact Hgated.
  - destruct (handleSubmit env st) as [[st' effects]|m] eqn:Hrun; [|done].
    by eapply handleSubmit_gated.
  - by apply goBack_gated.
Qed.

Lemma act_frame (st : State) (a : Action) :
  questions (act st a) = questions st /\ loading (act st a) = loading st.
Proof.
  destruct a as [k|env|]; simpl.
  - destruct (press_frame st k) as (Hq & _ & _ & _ & Hl). done.
  - destruct (handleSubmit env st) as [[st' effects]|m] eqn:Hrun; [|done].
    destruct (handleSubmit_cases env st st' effects Hrun)
      as [[-> _] | (q & _ & _ & _ & _ & _ & _ & _ & Hqs & Hl & _)]; done.
  - done.
Qed.

Lemma gated_render (st : State) :
  gated st -> loading st = false ->
  (questions st = [] /\ render st = Return Blank)
  \/ exists q, index (questions st) (currentQuestionIndex st) = Some q
               /\ render st = Return (QuestionScreen q).
Proof.
  intros Hgated Hloading. unfold render. rewrite Hloading, (gated_accessible st Hgated).
  cbn. destruct Hgated as [[Hnil _] | [Hrange _]].
  - left. by rewrite Hnil.
  - right. destruct (index_in_range (questions st) (currentQuestionIndex st) Hrange)
      as [q Hq].
    exists q. split; [done|]. rewrite Hq.
    destruct (Nat.eqb_spec (length (questions st)) 0) as [Hlen|]; [lia | done].
Qed.

Lemma gated_submit_returns (env : Env) (st : State) :
  gated st -> exists st' effects, handleSubmit env st = Return (st', effects).
Proof.
  intros Hgated. unfold handleSubmit.
  destruct (String.eqb (trim (morseInput st)) ""); [eauto|].
  destruct (questionStartTime st); [|eauto].
  destruct (user env); [|eauto].
  destruct (Nat.eqb_spec (length (questions st)) 0) as [|Hlen]; [eauto|].
  destruct Hgated as [[Hnil _] | [Hrange _]]; [by rewrite Hnil in Hlen|].
  destruct (index_in_range (questions st) (currentQuestionIndex st) Hrange) as [q ->].
  destruct (upsertFails env); [eauto|].
  destruct (checkAnswer (morseInput st) q); [|eauto].
  destruct (_ <? _); eauto.
Qed.

(** A call that runs to its end before the next event is a step of
    [act], or nothing when its button is not on the screen or is
    disabled; it leaves no call in flight. *)
Lemma sequential_action (s : Session) (a : Action) :
  inFlight s = [] ->
  foldl occur s (eventsOf a) = s
  \/ foldl occur s (eventsOf a) = start (act (current s) a).
Proof.
  intros Hnone. destruct s as [st calls]. simpl in Hnone. subst calls.
  destruct a as [k|env|]; simpl.
  - destruct (render st) as [[| | |q]|m]; auto.
  - destruct (render st) as [[| | |q]|m]; simpl; auto.
    destruct (submitDisabled st q); simpl; auto.
    right. unfold start. f_equal. apply act_settles.
  - destruct (render st) as [[| | |q]|m]; auto.
Qed.

Lemma sequential_gated (actions : list Action) (s : Session) :
  NoDup (id <$> questions (current s)) ->
  inFlight s = [] ->
  gated (current s) ->
  let s' := foldl occur s (actions ≫= eventsOf) in
  inFlight s' = []
  /\ gated (current s')
  /\ questions (current s') = questions (current s)
  /\ loading (current s') = loading (current s).
Proof.
  revert s. induction actions as [|a actions IH]; intros s Hnodup Hnone Hgated; [done|].
  cbn zeta. rewrite bind_cons, foldl_app.
  destruct (sequential_action s a Hnone) as [-> | ->]; [by apply IH|].
  destruct (act_frame (current s) a) as [Hq Hl].
  destruct (IH (start (act (current s) a))) as (Hnone' & Hgated' & Hq' & Hl').
  - simpl. by rewrite Hq.
  - done.
  - simpl. by apply act_gated.
  - simpl in *. split; [done|]. split; [done|]. split; congruence.
Qed.

(** [X2] The gate is kept as long as no two calls of [handleSubmit]
    overlap. When the questions have distinct ids, after a successful
    load and any handler calls (keys, submissions with any outcome of the
    write, "Go Back"), each submission running to its end before the next
    event, no call is in flight, the current index is in range, every
    question before it has a correct outcome and [canAccessQuestion]
    answers [true] for it: the locked screen is not rendered, the
    component renders the current question (or nothing when there is no
    question), and [handleSubmit] does not throw. *)
Theorem locked_screen_unreachable (questionsData : list Question)
    (userAnswers : option (list UserAnswer)) (now : Z) (st0 : State)
    (actions : list Action) :
  NoDup (id <$> questionsData) ->
  let s := foldl occur
             (start (fst (fetchQuestionsAndProgress (Data (Some questionsData))
                            (Data userAnswers) now st0)))
             (actions ≫= eventsOf) in
  let st := current s in
  inFlight s = []
  /\ gated st
  /\ canAccessQuestion st (currentQuestionIndex st) = Return (JBool true)
  /\ locked st = false
  /\ render st <> Return LockedScreen
  /\ ((questionsData = [] /\ render st = Return Blank)
      \/ exists q, index questionsData (currentQuestionIndex st) = Some q
                   /\ render st = Return (QuestionScreen q))
  /\ forall env, exists st' effects, handleSubmit env st = Return (st', effects).
Proof.
  intros Hnodup s st.
  destruct (sequential_gated actions
              (start (fst (fetchQuestionsAndProgress (Data (Some questionsData))
                             (Data userAnswers) now st0))))
    as (Hnone & Hgated & Hqs & Hloading); [done | done | apply gated_loaded |].
  fold s in Hnone, Hgated, Hqs, Hloading. fold st in Hgated, Hqs, Hloading.
  simpl in Hqs, Hloading.
  pose proof (gated_accessible st Hgated) as Hacc.
  assert ((questionsData = [] /\ render st = Return Blank)
          \/ exists q, index questionsData (currentQuestionIndex st) = Some q
                       /\ render st = Return (QuestionScreen q)) as Hrender.
  { rewrite <- Hqs. by apply gated_render. }
  split; [done|]. split; [done|]. split; [done|].
  split; [unfold locked; by rewrite Hacc|].
  split; [|split; [done | intros env; by apply gated_submit_returns]].
  destruct Hrender as [[_ ->] | (q & _ & ->)]; discriminate.
Qed.

Lemma locked_screen_unreachable_witness :
  locked (current
            (foldl occur
               (start (fst (fetchQuestionsAndProgress (Data (Some fourQuestions))
                              (Data None) 0 initialState)))
               ([Press Dot; Press Dash; Submit (sampleEnv false); Press Dash;
                 Submit (sampleEnv false); GoBack] ≫= eventsOf))) = false.
Proof.
  apply (locked_screen_unreachable fourQuestions None 0 initialState
           [Press Dot; Press Dash; Submit (sampleEnv false); Press Dash;
            Submit (sampleEnv false); GoBack]).
  vm_compute. repeat constructor; set_solver.
Defined.

(** With two calls in flight the gate is not kept: a wrong answer and
    then the right answer to the first question are submitted before
    either write completes; the right one completes first and moves to
    the second question, the wrong one completes last and stores its
    outcome: the locked screen is rendered. *)
Lemma overlapping_submissions_lock :
  let s := foldl occur freshSession
             [Tap Dot; Click (sampleEnv false); Tap Dash; Click (sampleEnv false);
              Settle 1; Settle 0] in
  reachable s
  /\ inFlight s = []
  /\ currentQuestionIndex (current s) = 1
  /\ render (current s) = Return LockedScreen
  /\ canAccessQuestion (goBack (current s)) (currentQuestionIndex (goBack (current s)))
     = Return (JBool true).
Proof.
  split.
  - by exists (Data (Some fourQuestions)), (Data (Some [])), 1000,
      [Tap Dot; Click (sampleEnv false); Tap Dash; Click (sampleEnv false);
       Settle 1; Settle 0].
  - by vm_compute.
Qed.


(** [X3] After a load, every index up to the current one is accessible,
    and as long as some question lacks a correct outcome the index after
    the current one is not. *)
Theorem load_opens_exactly_the_prefix (questionsData : list Question)
    (userAnswers : option (list UserAnswer)) (now : Z) (st0 : State) :
  let st := fst (fetchQuestionsAndProgress (Data (Some questionsData))
                   (Data userAnswers) now st0) in
  (forall i : Z, 0 <= i <= currentQuestionIndex st ->
                 canAccessQuestion st i = Return (JBool true))
  /\ ((exists q, q ∈ questionsData
                 /\ lacksCorrectOutcome (answers (userProgress st)) q) ->
      canAccessQuestion st (currentQuestionIndex st + 1) <> Return (JBool true)).
Proof.
  intros st.
  assert (currentQuestionIndex st
          = findCurrentQuestionIndex questionsData (answers (userProgress st))) as Hidx.
  { subst st. simpl. apply computeProgress_index. }
  assert (questions st = questionsData) as Hqs by reflexivity.
  destruct (decide (questionsData = [])) as [Hnil|Hne].
  { rewrite Hnil, findCurrentQuestionIndex_nil in Hidx. rewrite Hidx, Hnil. split.
    - intros i Hi. assert (i = 0) as -> by lia. done.
    - intros (q & Hq & _). by apply elem_of_nil in Hq. }
  destruct (findCurrentQuestionIndex_stop questionsData (answers (userProgress st)) Hne)
    as (r & Hr & Hlt & Hbefore & Hstop).
  rewrite Hidx, Hr. split.
  - intros i Hi. destruct (decide (i = 0)) as [->|Hi0]; [reflexivity|].
    apply canAccessQuestion_true_iff; [done|]. rewrite Hqs.
    destruct (index_in_range questionsData (i - 1)) as [q Hq]; [lia|].
    exists q. split; [done|].
    unfold index in Hq. rewrite (proj2 (Z.ltb_ge _ _)) in Hq by lia.
    apply (Hbefore _ q) in Hq; [done | lia].
  - intros (q & Hq & Hlacks) Hacc.
    apply canAccessQuestion_true_iff in Hacc as (q' & Hq' & Hcorrect); [|lia].
    rewrite Hqs in Hq'. unfold index in Hq'.
    rewrite (proj2 (Z.ltb_ge _ _)) in Hq' by lia.
    replace (Z.to_nat (Z.of_nat r + 1 - 1)) with r in Hq' by lia.
    destruct Hstop as [(q'' & Hq'' & Hbad) | [_ Hall]].
    + rewrite Hq' in Hq''. injection Hq'' as <-. by eapply outcomes_exclusive.
    + eapply outcomes_exclusive; [apply (Hall q Hq) | exact Hlacks].
Qed.

Lemma load_opens_exactly_the_prefix_witness :
  canAccessQuestion (fst (fetchQuestionsAndProgress (Data (Some fourQuestions))
                            (Data None) 0 initialState))
    (currentQuestionIndex (fst (fetchQuestionsAndProgress (Data (Some fourQuestions))
                                  (Data None) 0 initialState)) + 1)
  <> Return (JBool true).
Proof.
  apply (proj2 (load_opens_exactly_the_prefix fourQuestions None 0 initialState)).
  exists (question 1 "q1" ".-"). split; [set_solver|]. left. reflexivity.
Defined.

(** ** Submissions *)

(** [X4] After a submission whose record was written, the question after
    the submitted one is accessible exactly when the answer was correct:
    a right answer opens it, a wrong answer closes it, whatever was
    recorded before. *)
Theorem written_answer_sets_the_next_gate (env : Env) (st st' : State)
    (effects : list Effect) (r : AnswerRecord) :
  handleSubmit env st = Return (st', effects) ->
  writes effects = [r] ->
  upsertFails env = false ->
  (canAccessQuestion st' (currentQuestionIndex st + 1) = Return (JBool true)
   <-> r_is_correct r = true).
Proof.
  intros Hrun Hwrites Hok.
  destruct (handleSubmit_cases env st st' effects Hrun)
    as [[-> [-> | [-> | [r' ->]]]]
       | (q & startTime & userId & Hq & Hstart & Huser & Hinput & _ & Hqs & _ & Hans & _)];
    try discriminate.
  { exfalso. revert Hrun. unfold handleSubmit. rewrite Hok.
    destruct (String.eqb (trim (morseInput st)) ""); [discriminate|].
    destruct (questionStartTime st); [|discriminate].
    destruct (user env); [|discriminate].
    destruct (length (questions st) =? 0)%nat; [discriminate|].
    destruct (index (questions st) (currentQuestionIndex st)) as [q|]; [|discriminate].
    destruct (checkAnswer (morseInput st) q); [|discriminate].
    destruct (_ <? _); discriminate. }
  destruct (handleSubmit_writes env st userId startTime q Hinput Hstart Huser Hq)
    as (st1 & rest & Hrun' & Hrest & _).
  rewrite Hrun in Hrun'. injection Hrun' as <- ->.
  simpl in Hwrites. rewrite Hrest in Hwrites. injection Hwrites as <-. simpl.
  pose proof (index_Some_range _ _ _ Hq) as Hrange.
  rewrite canAccessQuestion_true_iff by lia.
  rewrite Hqs, Hans. replace (currentQuestionIndex st + 1 - 1) with (currentQuestionIndex st) by lia.
  unfold hasCorrectOutcome. split.
  - intros (q' & Hq' & o & Ho & Hc). rewrite Hq in Hq'. injection Hq' as <-.
    rewrite lookup_insert_eq in Ho. injection Ho as <-. exact Hc.
  - intros Hc. exists q. split; [done|]. eexists. rewrite lookup_insert_eq.
    split; [reflexivity | exact Hc].
Qed.

Lemma written_answer_sets_the_next_gate_witness :
  exists st' effects r,
    handleSubmit (sampleEnv false) (session fourQuestions 0 ".-" ∅) = Return (st', effects)
    /\ (canAccessQuestion st' (0 + 1) = Return (JBool true) <-> r_is_correct r = true).
Proof.
  eexists _, _, _. split; [reflexivity|].
  eapply (written_answer_sets_the_next_gate (sampleEnv false)
            (session fourQuestions 0 ".-" ∅)); reflexivity.
Defined.

(** [X5] A call of [handleSubmit] writes at most one record, and it writes
    one exactly when the trimmed input is not empty, a start time is set,
    a user is signed in and the current index names a question. Blank
    input, a missing user or start time, and an empty question list all
    return without a write. *)
Theorem write_needs_all_guards (env : Env) (st st' : State) (effects : list Effect) :
  handleSubmit env st = Return (st', effects) ->
  (length (writes effects) <= 1)%nat
  /\ (writes effects <> []
      <-> trim (morseInput st) <> ""
          /\ is_Some (questionStartTime st)
          /\ is_Some (user env)
          /\ is_Some (index (questions st) (currentQuestionIndex st))).
Proof.
  intros Hrun.
  destruct (String.eqb_spec (trim (morseInput st)) "") as [Hblank|Hinput].
  { revert Hrun. unfold handleSubmit. rewrite Hblank. simpl. intros [= <- <-].
    simpl. split; [lia|]. split; [done | intros [? _]; done]. }
  destruct (questionStartTime st) as [startTime|] eqn:Hstart; cycle 1.
  { revert Hrun. unfold handleSubmit.
    rewrite (proj2 (String.eqb_neq _ _) Hinput), Hstart. intros [= <- <-].
    simpl. split; [lia|]. split; [done | intros (_ & [? ?] & _); done]. }
  destruct (user env) as [userId|] eqn:Huser; cycle 1.
  { revert Hrun. unfold handleSubmit.
    rewrite (proj2 (String.eqb_neq _ _) Hinput), Hstart, Huser. intros [= <- <-].
    simpl. split; [lia|]. split; [done | intros (_ & _ & [? ?] & _); done]. }
  destruct (index (questions st) (currentQuestionIndex st)) as [q|] eqn:Hq; cycle 1.
  { revert Hrun. unfold handleSubmit.
    rewrite (proj2 (String.eqb_neq _ _) Hinput), Hstart, Huser, Hq.
    destruct (length (questions st) =? 0)%nat; [|discriminate]. intros [= <- <-].
    simpl. split; [lia|]. split; [done | intros (_ & _ & _ & [? ?]); done]. }
  destruct (handleSubmit_writes env st userId startTime q Hinput Hstart Huser Hq)
    as (st1 & rest & Hrun' & Hrest & _).
  rewrite Hrun in Hrun'. injection Hrun' as <- ->.
  simpl. rewrite Hrest. simpl. split; [lia|]. split; [|done].
  intros _. eauto.
Qed.

Lemma write_needs_all_guards_witness :
  exists st' effects,
    handleSubmit (sampleEnv false) (session fourQuestions 0 "   " ∅) = Return (st', effects)
    /\ (length (writes effects) <= 1)%nat.
Proof.
  exists (session fourQuestions 0 "   " ∅), [ShowToast EnterAnswer].
  split; [reflexivity|].
  apply (proj1 (write_needs_all_guards (sampleEnv false)
                  (session fourQuestions 0 "   " ∅)
                  (session fourQuestions 0 "   " ∅) [ShowToast EnterAnswer] eq_refl)).
Defined.









(** ** The list of completed questions *)

Lemma uniq_snoc (xs : list string) (x : string) :
  uniq (xs ++ [x]) = if decide (x ∈ uniq xs) then uniq xs else uniq xs ++ [x].
Proof. unfold uniq. by rewrite foldl_app. Qed.

Lemma elem_of_uniq (xs : list string) (x : string) : x ∈ uniq xs <-> x ∈ xs.
Proof.
  induction xs as [|y xs IH] using rev_ind; [done|].
  rewrite uniq_snoc. destruct (decide (y ∈ uniq xs)) as [Hin|Hout].
  - rewrite IH, elem_of_app, list_elem_of_singleton. split; [auto|].
    intros [H | ->]; [done | by apply IH].
  - by rewrite !elem_of_app, IH.
Qed.

Lemma NoDup_uniq (xs : list string) : NoDup (uniq xs).
Proof.
  induction xs as [|y xs IH] using rev_ind; [constructor|].
  rewrite uniq_snoc. destruct (decide (y ∈ uniq xs)) as [Hin|Hout]; [done|].
  apply NoDup_app. split; [done|]. split; [|apply NoDup_singleton].
  intros x Hx ->%list_elem_of_singleton. done.
Qed.




(** ** The end of the quiz *)



(** ** The input pad *)

Lemma dropLast_append_char (s : string) (c : ascii) :
  dropLast (s +:+ String c EmptyString) = s.
Proof.
  induction s as [|c' s IH]; [reflexivity|].
  change (String c' s +:+ String c EmptyString) with (String c' (s +:+ String c EmptyString)).
  cbn [dropLast]. rewrite IH. destruct s; reflexivity.
Qed.

Lemma length_dropLast (s : string) :
  String.length (dropLast s) = Nat.pred (String.length s).
Proof.
  induction s as [|c s IH]; [reflexivity|].
  cbn [dropLast]. destruct s as [|c' s]; [reflexivity|].
  cbn [String.length]. rewrite IH. reflexivity.
Qed.

(** [X10] Backspace undoes the last key: after a dot or a dash it gives
    back the state before the key; on an empty buffer it changes
    nothing; otherwise it shortens the buffer by one character and
    touches nothing else. *)
Theorem backspace_undoes_a_key (st : State) :
  backspaceInput (addDot st) = st
  /\ backspaceInput (addDash st) = st
  /\ (morseInput st = "" -> backspaceInput st = st)
  /\ String.length (morseInput (backspaceInput st))
     = Nat.pred (String.length (morseInput st))
  /\ questions (backspaceInput st) = questions st
  /\ currentQuestionIndex (backspaceInput st) = currentQuestionIndex st
  /\ userProgress (backspaceInput st) = userProgress st
  /\ questionStartTime (backspaceInput st) = questionStartTime st.
Proof.
  split; [|split; [|split; [|split]]].
  - destruct st. unfold backspaceInput, addDot. simpl. by rewrite dropLast_append_char.
  - destruct st. unfold backspaceInput, addDash. simpl. by rewrite dropLast_append_char.
  - destruct st. simpl. intros ->. reflexivity.
  - apply length_dropLast.
  - done.
Qed.


Lemma backspace_undoes_a_key_witness : backspaceInput initialState = initialState.
Proof.
  apply (proj1 (proj2 (proj2 (backspace_undoes_a_key initialState)))). reflexivity.
Defined.

(** ** A failed load *)

(** [X11] When the question query fails or yields no data, or the answer
    query fails, the load shows the "Failed to load questions." toast and
    only clears the loading flag: questions, index, progress, buffer and
    start time stay as they were. From a state without questions, as the
    initial one, the component then renders nothing, and a submission
    writes nothing. *)
Theorem failed_load_shows_nothing (questionsResponse : Response (list Question))
    (answersResponse : Response (list UserAnswer)) (now : Z) (st : State) :
  questionsResponse = Failure \/ questionsResponse = Data None \/ answersResponse = Failure ->
  let result := fetchQuestionsAndProgress questionsResponse answersResponse now st in
  snd result = [ShowToast LoadFailed]
  /\ loading (fst result) = false
  /\ questions (fst result) = questions st
  /\ currentQuestionIndex (fst result) = currentQuestionIndex st
  /\ userProgress (fst result) = userProgress st
  /\ morseInput (fst result) = morseInput st
  /\ questionStartTime (fst result) = questionStartTime st
  /\ (questions st = [] -> currentQuestionIndex st = 0 ->
      render (fst result) = Return Blank
      /\ forall env st' effects,
           handleSubmit env (fst result) = Return (st', effects) -> writes effects = []).
Proof.
  intros Hfail result.
  assert (result
          = ({| questions := questions st;
                currentQuestionIndex := currentQuestionIndex st;
                morseInput := morseInput st;
                questionStartTime := questionStartTime st;
                userProgress := userProgress st;
                loading := false |}, [ShowToast LoadFailed])) as ->.
  { subst result. unfold fetchQuestionsAndProgress.
    destruct Hfail as [-> | [-> | ->]]; [done | done |].
    by destruct questionsResponse as [[qs|]|]. }
  simpl. do 7 (split; [done|]).
  intros Hnil Hidx. split.
  - unfold render, canAccessQuestion. simpl. rewrite Hidx, Hnil. reflexivity.
  - intros env st' effects. unfold handleSubmit. simpl. rewrite Hnil. simpl.
    destruct (String.eqb (trim (morseInput st)) ""); [by intros [= <- <-]|].
    destruct (questionStartTime st); [|by intros [= <- <-]].
    destruct (user env); by intros [= <- <-].
Qed.

Lemma failed_load_shows_nothing_witness :
  render (fst (fetchQuestionsAndProgress Failure (Data None) 5 initialState)) = Return Blank.
Proof.
  refine (proj1 (proj2 (proj2 (proj2 (proj2 (proj2 (proj2 (proj2
            (failed_load_shows_nothing Failure (Data None) 5 initialState _)))))))
            eq_refl eq_refl)).
  by left.
Defined.

End CompetitionMore.

(** * Further properties of the leaderboard *)

Module NavbarMore.
Import Navbar NavbarProofs.

(** ** Reading the whole table *)

Lemma tableStore_page (rows : list AnswerRow) (page : nat) :
  tableStore rows (page * PAGE_SIZE) ((page + 1) * PAGE_SIZE - 1)
  = BatchData (Some (take PAGE_SIZE (drop (page * PAGE_SIZE) rows))).
Proof.
  unfold tableStore. do 3 f_equal. unfold PAGE_SIZE. lia.
Qed.

Lemma fetchAll_table (rows : list AnswerRow) (fuel page : nat) (allAnswers : list AnswerRow) :
  (length rows - page * PAGE_SIZE < fuel * PAGE_SIZE)%nat ->
  fetchAll (tableStore rows) fuel page allAnswers
  = Some (allAnswers ++ drop (page * PAGE_SIZE) rows).
Proof.
  revert page allAnswers. induction fuel as [|fuel IH]; intros page allAnswers Hfuel;
    [simpl in Hfuel; lia|].
  cbn [fetchAll]. rewrite tableStore_page.
  assert (length (take PAGE_SIZE (drop (page * PAGE_SIZE) rows))
          = (PAGE_SIZE `min` (length rows - page * PAGE_SIZE))%nat) as Hlen
    by (by rewrite length_take, length_drop).
  unfold PAGE_SIZE in *.
  destruct (Nat.ltb_spec 0 (length (take 100 (drop (page * 100) rows)))) as [Hpos|Hzero].
  - destruct (Nat.ltb_spec (length (take 100 (drop (page * 100) rows))) 100)
      as [Hshort|Hfull].
    + rewrite take_ge by (rewrite length_drop; lia). done.
    + rewrite IH by lia.
      rewrite <- app_assoc. f_equal. f_equal.
      replace (S page * 100)%nat with (page * 100 + 100)%nat by lia.
      rewrite <- drop_drop. by rewrite take_drop.
  - rewrite drop_ge by lia. by rewrite app_nil_r.
Qed.

(** [X12] Against a store that serves a fixed table slice by slice, the
    paginated read ends and returns all the rows of the table in order,
    whatever the size of the table (also a multiple of the page size, or
    no row at all), and the call sets the leaderboard computed from all
    of them without a timer. *)
Theorem pagination_reads_the_whole_table (rows : list AnswerRow) (fuel : nat) :
  (length rows < fuel * PAGE_SIZE)%nat ->
  fetchAll (tableStore rows) fuel 0 [] = Some rows
  /\ forall (st : State) (scores : list (string * UserData)),
       aggregate rows = Return scores ->
       loadLeaderboard (fun _ => tableStore rows) fuel 0 st
       = Some ({| leaderboard := leaderboardData scores;
                  isLeaderboardLoading := true;
                  leaderboardError := None |}, []).
Proof.
  intros Hfuel.
  assert (fetchAll (tableStore rows) fuel 0 [] = Some rows) as Hread.
  { rewrite fetchAll_table by lia. done. }
  split; [exact Hread|].
  intros st scores Hagg. rewrite loadLeaderboard_unfold. unfold attempt.
  rewrite Hread, Hagg. reflexivity.
Qed.

Lemma pagination_reads_the_whole_table_witness :
  fetchAll (tableStore fastThenSlow) 1 0 [] = Some fastThenSlow.
Proof.
  apply (pagination_reads_the_whole_table fastThenSlow 1). vm_compute. lia.
Defined.

(** [X13] The read has no bound of its own: against a store that answers
    every request with a full page (one that ignores the range, say) the
    loop is still running after any number of requests. *)
Theorem pagination_may_not_end (fetch : nat -> nat -> Batch) :
  (forall from to, exists data,
      fetch from to = BatchData (Some data) /\ (PAGE_SIZE <= length data)%nat) ->
  forall (fuel page : nat) (allAnswers : list AnswerRow),
    fetchAll fetch fuel page allAnswers = None.
Proof.
  intros Hfull fuel. induction fuel as [|fuel IH]; intros page allAnswers; [done|].
  cbn [fetchAll].
  destruct (Hfull (page * PAGE_SIZE)%nat ((page + 1) * PAGE_SIZE - 1)%nat)
    as (data & -> & Hlen).
  unfold PAGE_SIZE in *.
  rewrite (proj2 (Nat.ltb_lt _ _)) by lia.
  rewrite (proj2 (Nat.ltb_ge _ _)) by lia.
  apply IH.
Qed.

Lemma pagination_may_not_end_witness :
  fetchAll (fun _ _ => BatchData (Some (replicate 100 (row "u1" "q1" 1 "Ann")))) 5 0 [] = None.
Proof.
  apply (pagination_may_not_end
           (fun _ _ => BatchData (Some (replicate 100 (row "u1" "q1" 1 "Ann"))))).
  intros from to. eexists. split; [reflexivity|]. rewrite length_replicate. done.
Defined.

(** ** What a load ends with *)

(** The ways a call of [loadLeaderboard] and its retries can end. *)
Lemma loadLeaderboard_outcome (store : nat -> nat -> nat -> Batch) (fuel : nat)
    (st st' : State) (effects : list Effect) :
  loadLeaderboard store fuel 0 st = Some (st', effects) ->
  exists n : nat,
    (n <= 3)%nat
    /\ effects = take n (backoff 0)
    /\ (forall k, (k < n)%nat -> exists m, attempt (store k) fuel = Some (Throw m))
    /\ ((exists data, attempt (store n) fuel = Some (Return data)
                      /\ st' = loadedState n data)
        \/ (n = 3%nat
            /\ exists m, attempt (store 3%nat) fuel = Some (Throw m)
                         /\ st' = {| leaderboard := leaderboard st;
                                     isLeaderboardLoading := false;
                                     leaderboardError := Some (errorMessage m) |})).
Proof.
  rewrite loadLeaderboard_unfold.
  destruct (attempt (store 0%nat) fuel) as [[d0|m0]|] eqn:H0; [| |discriminate].
  { intros [= <- <-]. exists 0%nat. split; [lia|]. split; [done|].
    split; [intros k Hk; lia|]. left. eauto. }
  simpl. rewrite loadLeaderboard_unfold.
  destruct (attempt (store 1%nat) fuel) as [[d1|m1]|] eqn:H1; [| |discriminate].
  { intros [= <- <-]. exists 1%nat. split; [lia|]. split; [done|].
    split; [|left; eauto].
    intros k Hk. assert (k = 0%nat) as -> by lia. eauto. }
  simpl. rewrite loadLeaderboard_unfold.
  destruct (attempt (store 2%nat) fuel) as [[d2|m2]|] eqn:H2; [| |discriminate].
  { intros [= <- <-]. exists 2%nat. split; [lia|]. split; [done|].
    split; [|left; eauto].
    intros k Hk. destruct k as [|[|k]]; [eauto | eauto | lia]. }
  simpl. rewrite loadLeaderboard_unfold.
  destruct (attempt (store 3%nat) fuel) as [[d3|m3]|] eqn:H3; [| |discriminate].
  { intros [= <- <-]. exists 3%nat. split; [lia|]. split; [done|].
    split; [|left; eauto].
    intros k Hk. destruct k as [|[|[|k]]]; [eauto | eauto | eauto | lia]. }
  simpl. intros [= <- <-]. exists 3%nat. split; [lia|]. split; [done|].
  split; [|right; eauto].
  intros k Hk. destruct k as [|[|[|k]]]; [eauto | eauto | eauto | lia].
Qed.

(** [X14] A load that ends has made at most four calls. The calls before
    the last one threw outside the read and each set the next timer of
    the schedule 1000, 2000, 4000 ms. Either the last call succeeded, and
    the state holds its leaderboard and no error, or it was the fourth
    call to throw, and the state holds the leaderboard from before the
    load and the message of that last error. *)
Theorem load_ends_in_success_or_fourth_error (store : nat -> nat -> nat -> Batch)
    (fuel : nat) (st st' : State) (effects : list Effect) :
  loadLeaderboard store fuel 0 st = Some (st', effects) ->
  exists n : nat,
    (n <= 3)%nat
    /\ effects = take n [SetTimeout 1000; SetTimeout 2000; SetTimeout 4000]
    /\ (forall k, (k < n)%nat -> exists m, attempt (store k) fuel = Some (Throw m))
    /\ ((exists data, attempt (store n) fuel = Some (Return data)
                      /\ leaderboard st' = data
                      /\ leaderboardError st' = None)
        \/ (n = 3%nat
            /\ exists m, attempt (store 3%nat) fuel = Some (Throw m)
                         /\ leaderboard st' = leaderboard st
                         /\ leaderboardError st' = Some (errorMessage m))).
Proof.
  intros Hrun.
  destruct (loadLeaderboard_outcome store fuel st st' effects Hrun)
    as (n & Hn & Heff & Hthrows & Hend).
  exists n. split; [done|]. split; [done|]. split; [done|].
  destruct Hend as [(data & Hdata & ->) | (-> & m & Hm & ->)].
  - left. exists data. done.
  - right. split; [done|]. exists m. done.
Qed.

Lemma load_ends_in_success_or_fourth_error_witness :
  exists n : nat,
    (n <= 3)%nat
    /\ [SetTimeout 1000; SetTimeout 2000; SetTimeout 4000]
       = take n [SetTimeout 1000; SetTimeout 2000; SetTimeout 4000]
    /\ (forall k, (k < n)%nat ->
          exists m, attempt (brokenJoinStore k) 1 = Some (Throw m))
    /\ ((exists data, attempt (brokenJoinStore n) 1 = Some (Return data)
                      /\ [] = data /\ Some "TypeError" = None)
        \/ (n = 3%nat
            /\ exists m, attempt (brokenJoinStore 3%nat) 1 = Some (Throw m)
                         /\ @nil LeaderboardEntry = []
                         /\ Some "TypeError" = Some (errorMessage m))).
Proof.
  apply (load_ends_in_success_or_fourth_error brokenJoinStore 1 emptyState
           {| leaderboard := []; isLeaderboardLoading := false;
              leaderboardError := Some "TypeError" |}
           [SetTimeout 1000; SetTimeout 2000; SetTimeout 4000]).
  by vm_compute.
Defined.

(** [X15] The loading flag is set by every call and cleared only in the
    [finally] block of a call with [retryCount = 3]: after a load that
    ends, the flag is [false] exactly when three timers were set. A load
    that succeeds at once, or after one or two retries, leaves the flag
    [true]. *)
Theorem loading_flag_cleared_only_after_three_retries (store : nat -> nat -> nat -> Batch)
    (fuel : nat) (st st' : State) (effects : list Effect) :
  loadLeaderboard store fuel 0 st = Some (st', effects) ->
  (isLeaderboardLoading st' = false <-> length effects = 3%nat).
Proof.
  intros Hrun.
  destruct (loadLeaderboard_outcome store fuel st st' effects Hrun)
    as (n & Hn & -> & _ & Hend).
  rewrite length_take. change (length (backoff 0)) with 3%nat.
  destruct Hend as [(data & _ & ->) | (-> & m & _ & ->)]; simpl.
  - destruct n as [|[|[|[|n]]]]; simpl; split; (done || lia).
  - done.
Qed.

Lemma loading_flag_cleared_only_after_three_retries_witness :
  isLeaderboardLoading (loadedState 0 (leaderboardData
      [("u1", {| name := "Ann"; correct := 1; totalTime := 7;
                 questionIds := {["q1"]} ∪ ∅ |})])) = false
  <-> length (@nil Effect) = 3%nat.
Proof.
  apply (loading_flag_cleared_only_after_three_retries (fun _ => tableStore oneAnswer) 1
           emptyState).
  reflexivity.
Defined.


(** ** Who is on the board *)

Lemma countAnswer_keys (acc acc' : list (string * UserData)) (a : AnswerRow) :
  countAnswer acc a = Return acc' ->
  acc'.*1 = if decide (user_id a ∈ acc.*1) then acc.*1 else acc.*1 ++ [user_id a].
Proof.
  unfold countAnswer.
  destruct (get acc (user_id a)) as [d0|] eqn:Hget.
  - assert (user_id a ∈ acc.*1) as Hin.
    { destruct (decide (user_id a ∈ acc.*1)) as [|Hout]; [done|].
      apply get_None_keys in Hout. congruence. }
    rewrite decide_True by done. cbn. rewrite Hget.
    destruct (decide _); intros [= <-]; [done|]. by rewrite set_keys, Hget.
  - pose proof (proj1 (get_None_keys _ _) Hget) as Hout.
    rewrite decide_False by done.
    destruct (profiles a) as [p|]; [|discriminate]. cbn.
    rewrite get_set_eq. destruct (decide _); intros [= <-].
    + by rewrite set_keys, Hget.
    + rewrite set_keys, get_set_eq. by rewrite set_keys, Hget.
Qed.

Lemma aggregate_snoc (log : list AnswerRow) (a : AnswerRow) :
  aggregate (log ++ [a]) = (acc ← aggregate log; countAnswer acc a).
Proof.
  unfold aggregate. rewrite forEach_app.
  destruct (forEach log []) as [acc|m]; cbn; [|done].
  by destruct (countAnswer acc a).
Qed.

Lemma aggregate_keys (log : list AnswerRow) (scores : list (string * UserData)) :
  aggregate log = Return scores -> scores.*1 = uniq (user_id <$> log).
Proof.
  revert scores. induction log as [|a log IH] using rev_ind; intros scores.
  - by intros [= <-].
  - rewrite aggregate_snoc. destruct (aggregate log) as [acc|m]; [|discriminate]. cbn.
    intros Hstep%countAnswer_keys. rewrite Hstep.
    replace (user_id <$> log ++ [a]) with ((user_id <$> log) ++ [user_id a])
      by (by rewrite fmap_app).
    rewrite CompetitionMore.uniq_snoc. by rewrite (IH acc eq_refl).
Qed.

(** [X16] The users with an entry are the users of the log, once each,
    in the order of their first row; every one of them has at least one
    counted answer. So the leaderboard has one entry per user of the log
    up to ten, a user without a row has none, and an empty log gives an
    empty leaderboard. *)
Theorem one_entry_per_user_of_the_log (log : list AnswerRow)
    (scores : list (string * UserData)) :
  aggregate log = Return scores ->
  scores.*1 = uniq (user_id <$> log)
  /\ (forall u d, (u, d) ∈ scores -> 1 <= correct d /\ exists a, a ∈ log /\ user_id a = u)
  /\ length (leaderboardData scores) = (10 `min` length (uniq (user_id <$> log)))%nat
  /\ (log = [] -> leaderboardData scores = []).
Proof.
  intros Hrun. pose proof (aggregate_keys log scores Hrun) as Hkeys.
  destruct (aggregate_agrees log scores Hrun) as [Hnodup Hinv].
  split; [done|]. split; [|split].
  - intros u d Hin. pose proof (NoDup_get scores u d Hnodup Hin) as Hget.
    specialize (Hinv u). rewrite Hget in Hinv. destruct Hinv as (Hne & Hc & _ & _).
    rewrite length_firstRecords_ofUser in Hc.
    destruct (ofUser u log) as [|a rest] eqn:Hrows; [done|].
    assert (a ∈ ofUser u log) as Ha by (rewrite Hrows; set_solver).
    apply list_elem_of_filter in Ha as [Hu Ha].
    split; [|eauto].
    assert (question_id a ∈ questionsOf u log) as Hq.
    { unfold questionsOf. rewrite Hrows. set_solver. }
    assert (size (questionsOf u log) <> 0%nat) as Hsize.
    { intros Hzero%size_empty_inv. set_solver. }
    lia.
  - unfold leaderboardData. rewrite length_imap, length_take.
    rewrite (Permutation_length (sort_Permutation compareEntries _)).
    rewrite length_map, <- Hkeys, length_fmap. done.
  - intros ->. injection Hrun as <-. reflexivity.
Qed.

Lemma one_entry_per_user_of_the_log_witness :
  exists scores,
    aggregate fastThenSlow = Return scores
    /\ scores.*1 = ["u1"; "u2"]
    /\ length (leaderboardData scores) = 2%nat.
Proof.
  eexists. split; [reflexivity|].
  edestruct (one_entry_per_user_of_the_log fastThenSlow) as (Hkeys & _ & Hlen & _);
    [reflexivity|].
  split; [exact Hkeys | exact Hlen].
Defined.

(** ** Display names and the missing join *)

Lemma firstRowOf_snoc (u : string) (log : list AnswerRow) (a : AnswerRow) :
  firstRowOf u (log ++ [a])
  = match firstRowOf u log with
    | Some first => Some first
    | None => if decide (user_id a = u) then Some a else None
    end.
Proof.
  unfold firstRowOf. rewrite ofUser_app, head_app.
  destruct (head (ofUser u log)); [done|].
  unfold ofUser. rewrite filter_cons, filter_nil. by destruct (decide _).
Qed.

Lemma counted_name (d : UserData) (a : AnswerRow) : name (counted d a) = name d.
Proof. unfold counted. by destruct (decide _). Qed.

Lemma aggregate_names (log : list AnswerRow) (scores : list (string * UserData))
    (u : string) (d : UserData) :
  aggregate log = Return scores ->
  get scores u = Some d ->
  exists a p,
    firstRowOf u log = Some a
    /\ profiles a = Some p
    /\ name d = orAnonymous (profile_display_name p).
Proof.
  revert scores d. induction log as [|a log IH] using rev_ind; intros scores d.
  - intros [= <-]. discriminate.
  - rewrite aggregate_snoc. destruct (aggregate log) as [acc|m] eqn:Hlog; [|discriminate].
    cbn. intros Hstep Hget.
    destruct (countAnswer_get acc scores a Hstep) as (Hother & d0 & Hd0 & Hnew).
    rewrite firstRowOf_snoc.
    destruct (decide (user_id a = u)) as [<-|Hne].
    + rewrite Hnew in Hget. injection Hget as <-. rewrite counted_name.
      destruct Hd0 as [Hold | (Hnone & p & Hp & ->)].
      * destruct (IH acc d0 eq_refl Hold) as (first & p & -> & Hp & Hname). eauto.
      * destruct (aggregate_agrees log acc Hlog) as [_ Hinv].
        specialize (Hinv (user_id a)). rewrite Hnone in Hinv.
        unfold firstRowOf. rewrite Hinv. simpl. eauto.
    + rewrite Hother in Hget by done.
      destruct (IH acc d eq_refl Hget) as (first & p & -> & Hp & Hname). eauto.
Qed.

(** [X17] Every entry of the leaderboard is the entry of one user of the
    log: it carries that user's number of distinct questions (as score)
    and that user's total time, and its display name is read from the
    first row of that same user and from no later one: it is the joined
    [display_name] of that row, or "Anonymous" when that name is null or
    empty. *)
Theorem name_comes_from_the_first_row (log : list AnswerRow)
    (scores : list (string * UserData)) (e : LeaderboardEntry) :
  aggregate log = Return scores ->
  e ∈ leaderboardData scores ->
  exists i u d a p,
    get scores u = Some d
    /\ e = withRank i (toEntry (u, d))
    /\ total_score e = valueOf (scoreOf (Z.of_nat (size (questionsOf u log))))
    /\ total_time e = sumTimes (ofUser u (firstRecords log))
    /\ firstRowOf u log = Some a
    /\ user_id a = u
    /\ (exists later, ofUser u log = a :: later)
    /\ profiles a = Some p
    /\ name d = orAnonymous (profile_display_name p)
    /\ display_name e = orAnonymous (profile_display_name p)
    /\ (display_name e = "Anonymous"
        <-> profile_display_name p = None \/ profile_display_name p = Some ""
            \/ profile_display_name p = Some "Anonymous").
Proof.
  intros Hrun (i & u & d & Hin & ->)%leaderboardData_elem_of.
  destruct (aggregate_agrees log scores Hrun) as [Hnodup _].
  pose proof (NoDup_get scores u d Hnodup Hin) as Hget.
  destruct (aggregate_names log scores u d Hrun Hget) as (a & p & Ha & Hp & Hname).
  destruct (aggregate_summary log scores u d Hrun Hget) as (Hc & Ht & _).
  rewrite length_firstRecords_ofUser in Hc.
  assert (exists later, ofUser u log = a :: later) as [later Hlater].
  { unfold firstRowOf in Ha. destruct (ofUser u log) as [|a' later]; [done|].
    injection Ha as ->. eauto. }
  assert (user_id a = u) as Hu.
  { assert (a ∈ ofUser u log) as Hmem by (rewrite Hlater; apply elem_of_cons; by left).
    unfold ofUser in Hmem. apply list_elem_of_filter in Hmem. tauto. }
  exists i, u, d, a, p. split; [done|]. split; [done|].
  split; [simpl; by rewrite Hc|]. split; [done|]. split; [done|]. split; [done|].
  split; [eauto|]. split; [done|]. split; [done|]. simpl. split; [done|].
  rewrite Hname. unfold orAnonymous.
  destruct (profile_display_name p) as [s|]; [|split; auto].
  destruct (String.eqb_spec s "") as [->|Hne].
  - split; auto.
  - split.
    + intros ->. auto.
    + intros [H | [[= H] | [= H]]]; congruence.
Qed.

Lemma name_comes_from_the_first_row_witness :
  exists i u d a p,
    get [("u1", {| name := "Ann"; correct := 1; totalTime := 7;
                   questionIds := {["q1"]} ∪ ∅ |})] u = Some d
    /\ withRank 0 (toEntry ("u1", {| name := "Ann"; correct := 1; totalTime := 7;
                                     questionIds := {["q1"]} ∪ ∅ |}))
       = withRank i (toEntry (u, d))
    /\ valueOf (scoreOf 1) = valueOf (scoreOf (Z.of_nat (size (questionsOf u oneAnswer))))
    /\ 7 = sumTimes (ofUser u (firstRecords oneAnswer))
    /\ firstRowOf u oneAnswer = Some a
    /\ user_id a = u
    /\ (exists later, ofUser u oneAnswer = a :: later)
    /\ profiles a = Some p
    /\ name d = orAnonymous (profile_display_name p)
    /\ "Ann" = orAnonymous (profile_display_name p)
    /\ ("Ann" = "Anonymous"
        <-> profile_display_name p = None \/ profile_display_name p = Some ""
            \/ profile_display_name p = Some "Anonymous").
Proof.
  apply (name_comes_from_the_first_row oneAnswer
           [("u1", {| name := "Ann"; correct := 1; totalTime := 7;
                      questionIds := {["q1"]} ∪ ∅ |})]
           (withRank 0 (toEntry ("u1", {| name := "Ann"; correct := 1; totalTime := 7;
                                          questionIds := {["q1"]} ∪ ∅ |})))
           eq_refl).
  apply list_elem_of_singleton. reflexivity.
Defined.

Lemma countAnswer_returns (acc : list (string * UserData)) (a : AnswerRow) :
  (exists acc', countAnswer acc a = Return acc')
  <-> is_Some (get acc (user_id a)) \/ is_Some (profiles a).
Proof.
  unfold countAnswer.
  destruct (get acc (user_id a)) as [d0|] eqn:Hget.
  - cbn. rewrite Hget. split; [eauto|]. intros _. destruct (decide _); eauto.
  - destruct (profiles a) as [p|].
    + cbn. rewrite get_set_eq. split; [eauto|]. intros _. destruct (decide _); eauto.
    + cbn. split; [intros [? ?]; discriminate|].
      intros [[? ?] | [? ?]]; discriminate.
Qed.

(** [X18] The aggregation throws exactly when the first row of some user
    comes without the joined profile; a later row of a user may lack it.
    With the profile on every first row the aggregation returns. *)
Theorem aggregation_needs_the_profile_of_first_rows (log : list AnswerRow) :
  (exists scores, aggregate log = Return scores)
  <-> forall u a, firstRowOf u log = Some a -> is_Some (profiles a).
Proof.
  split.
  - intros [scores Hrun] u a Ha.
    assert (a ∈ log /\ user_id a = u) as [Hin Hu].
    { apply head_Some_elem_of in Ha. apply list_elem_of_filter in Ha. tauto. }
    destruct (aggregate_covers log scores a Hrun Hin) as [d Hd]. rewrite Hu in Hd.
    destruct (aggregate_names log scores u d Hrun Hd) as (a' & p & Ha' & Hp & _).
    rewrite Ha in Ha'. injection Ha' as <-. eauto.
  - induction log as [|a log IH] using rev_ind; intros Hfirst; [by exists []|].
    destruct IH as [acc Hacc].
    { intros u b Hb. apply (Hfirst u). rewrite firstRowOf_snoc, Hb. done. }
    rewrite aggregate_snoc, Hacc. cbn. apply countAnswer_returns.
    destruct (get acc (user_id a)) as [d|] eqn:Hget; [left; eauto|]. right.
    apply (Hfirst (user_id a)). rewrite firstRowOf_snoc.
    destruct (aggregate_agrees log acc Hacc) as [_ Hinv].
    specialize (Hinv (user_id a)). rewrite Hget in Hinv.
    unfold firstRowOf. rewrite Hinv. simpl. by rewrite decide_True.
Qed.

Lemma aggregation_needs_the_profile_of_first_rows_witness :
  exists scores,
    aggregate [row "u1" "q1" 3 "Ann";
               {| user_id := "u1"; is_correct := true; time_taken_seconds := 4;
                  question_id := "q2"; profiles := None |}] = Return scores.
Proof.
  apply (proj2 (aggregation_needs_the_profile_of_first_rows
                  [row "u1" "q1" 3 "Ann";
                   {| user_id := "u1"; is_correct := true; time_taken_seconds := 4;
                      question_id := "q2"; profiles := None |}])).
  intros u a Ha. unfold firstRowOf, ofUser in Ha.
  rewrite filter_cons in Ha. destruct (decide (user_id (row "u1" "q1" 3 "Ann") = u)).
  - injection Ha as <-. by eexists.
  - rewrite filter_cons, decide_False in Ha by done. discriminate.
Defined.


(** ** The order of the board *)

(** [X19] An entry with a higher score than another, or with the same
    score in less time, stands before it on the leaderboard and has the
    lower rank. *)
Theorem better_entry_has_lower_rank (userScores : list (string * UserData))
    (i j : nat) (a b : LeaderboardEntry) :
  leaderboardData userScores !! i = Some a ->
  leaderboardData userScores !! j = Some b ->
  strictlyBetter a b ->
  (i < j)%nat /\ rank a < rank b.
Proof.
  intros (ea & Ha & ->)%leaderboardData_lookup (eb & Hb & ->)%leaderboardData_lookup.
  unfold strictlyBetter. simpl. intros Hbetter.
  assert (i < j)%nat as Hij; [|split; [done | lia]].
  destruct (Nat.lt_trichotomy i j) as [Hlt | [-> | Hgt]]; [done | |].
  - rewrite Ha in Hb. injection Hb as <-.
    destruct Hbetter as [H | [_ H]]; [lra | lia].
  - assert (entryBefore eb ea) as Hsorted.
    { apply (StronglySorted_lookup entryBefore (take 10 (sortedEntries userScores)) j i);
        [|done..].
      apply StronglySorted_take, sortedEntries_StronglySorted. }
    destruct Hsorted as [H | [H1 H2]]; destruct Hbetter as [G | [G1 G2]]; lra || lia.
Qed.

Lemma better_entry_has_lower_rank_witness :
  (0 < 1)%nat /\ 0 + 1 < 1 + 1.
Proof.
  apply (better_entry_has_lower_rank
           [("u1", {| name := "Ann"; correct := 1; totalTime := 7; questionIds := ∅ |});
            ("u2", {| name := "Bob"; correct := 2; totalTime := 30; questionIds := ∅ |})]
           0 1
           (withRank 0 (toEntry ("u2", {| name := "Bob"; correct := 2; totalTime := 30;
                                          questionIds := ∅ |})))
           (withRank 1 (toEntry ("u1", {| name := "Ann"; correct := 1; totalTime := 7;
                                          questionIds := ∅ |})))
           ltac:(by vm_compute) ltac:(by vm_compute)).
  left. by vm_compute.
Defined.

(** [X20] No user is left out for a better one. The entry of every user
    of the scores is on the leaderboard, or the leaderboard is full and
    each of its ten entries has a higher score than that user, or the
    same score and no more time. *)
Theorem only_the_worst_are_left_out (userScores : list (string * UserData))
    (u : string) (d : UserData) :
  (u, d) ∈ userScores ->
  (exists i, leaderboardData userScores !! i = Some (withRank i (toEntry (u, d))))
  \/ (length (leaderboardData userScores) = 10%nat
      /\ forall e, e ∈ leaderboardData userScores ->
           (entry_total_score (toEntry (u, d)) < total_score e)%Q
           \/ ((total_score e == entry_total_score (toEntry (u, d)))%Q
               /\ total_time e <= entry_total_time (toEntry (u, d)))).
Proof.
  intros Hin.
  assert (toEntry (u, d) ∈ take 10 (sortedEntries userScores)
                           ++ drop 10 (sortedEntries userScores)) as Hx.
  { rewrite take_drop. unfold sortedEntries. rewrite sort_Permutation.
    apply list_elem_of_fmap. by exists (u, d). }
  apply elem_of_app in Hx as [Htop | Hrest].
  - left. apply list_elem_of_lookup_1 in Htop as [i Hi]. exists i.
    unfold leaderboardData. fold (sortedEntries userScores).
    by rewrite list_lookup_imap, Hi.
  - right. split.
    + unfold leaderboardData. fold (sortedEntries userScores).
      rewrite length_imap, length_take.
      assert (10 < length (sortedEntries userScores))%nat; [|lia].
      destruct (decide (10 < length (sortedEntries userScores))%nat) as [|Hshort]; [done|].
      rewrite drop_ge in Hrest by lia. by apply elem_of_nil in Hrest.
    + intros e (i & Hi)%list_elem_of_lookup_1.
      apply leaderboardData_lookup in Hi as (entry & Hentry & ->).
      apply list_elem_of_lookup_2 in Hentry.
      change (entryBefore entry (toEntry (u, d))).
      apply (StronglySorted_app_1_elem_of entryBefore
               (take 10 (sortedEntries userScores)) (drop 10 (sortedEntries userScores)));
        [|done..].
      rewrite take_drop. apply sortedEntries_StronglySorted.
Qed.

Lemma only_the_worst_are_left_out_witness :
  (exists i, leaderboardData elevenUsers !! i
             = Some (withRank i (toEntry ("k", {| name := "user"; correct := 11;
                                                  totalTime := 10; questionIds := ∅ |}))))
  \/ (length (leaderboardData elevenUsers) = 10%nat
      /\ forall e, e ∈ leaderboardData elevenUsers ->
           (entry_total_score (toEntry ("k", {| name := "user"; correct := 11;
                                                totalTime := 10; questionIds := ∅ |}))
            < total_score e)%Q
           \/ ((total_score e
                == entry_total_score (toEntry ("k", {| name := "user"; correct := 11;
                                                       totalTime := 10;
                                                       questionIds := ∅ |})))%Q
               /\ total_time e
                  <= entry_total_time (toEntry ("k", {| name := "user"; correct := 11;
                                                        totalTime := 10;
                                                        questionIds := ∅ |})))).
Proof.
  apply (only_the_worst_are_left_out elevenUsers "k"
           {| name := "user"; correct := 11; totalTime := 10; questionIds := ∅ |}).
  unfold elevenUsers. apply list_elem_of_fmap. exists 10%nat.
  split; [reflexivity|]. apply elem_of_seq. lia.
Defined.

(** ** Ties *)

Section Stable.
Context {A : Type} (compare : A -> A -> Q).

Hypothesis compare_trans :
  forall a b c, inOrder compare a b -> inOrder compare b c -> inOrder compare a c.

Lemma tied_inOrder (a b : A) :
  tied compare a b <-> inOrder compare a b /\ inOrder compare b a.
Proof. unfold tied, inOrder. by rewrite !Qle_bool_iff. Qed.

Lemma insertSorted_filter_tied (x0 x : A) (sorted : list A) :
  filter (tied compare x0) (insertSorted compare x sorted)
  = filter (tied compare x0) (x :: sorted).
Proof.
  induction sorted as [|y sorted IH]; [done|].
  cbn [insertSorted]. destruct (Qle_bool (compare x y) 0) eqn:Hxy; [done|].
  rewrite (filter_cons _ y), IH, !filter_cons.
  destruct (decide (tied compare x0 x)) as [Hx|Hx]; [|done].
  destruct (decide (tied compare x0 y)) as [Hy|Hy]; [|done].
  exfalso. apply tied_inOrder in Hx as [_ Hx]. apply tied_inOrder in Hy as [Hy _].
  pose proof (compare_trans x x0 y Hx Hy) as Hle.
  apply Qle_bool_iff in Hle. congruence.
Qed.

Lemma sort_filter_tied (x0 : A) (xs : list A) :
  filter (tied compare x0) (sort compare xs) = filter (tied compare x0) xs.
Proof.
  induction xs as [|x xs IH]; [done|].
  unfold sort in *. cbn [foldr]. rewrite insertSorted_filter_tied, !filter_cons, IH. done.
Qed.

End Stable.

(** [X21] Entries that tie, with the same score and the same total time,
    keep among themselves the order of the score dictionary, which is the
    order in which their users first appear in the log: the sort is
    stable, and the tie is broken by nothing else. *)
Theorem ties_keep_the_order_of_first_appearance (userScores : list (string * UserData))
    (x : ScoreEntry) :
  filter (tied compareEntries x) (sortedEntries userScores)
  = filter (tied compareEntries x) (map toEntry userScores)
  /\ forall y, tied compareEntries x y
               <-> (entry_total_score x == entry_total_score y)%Q
                   /\ entry_total_time x = entry_total_time y.
Proof.
  split.
  - apply sort_filter_tied. apply compareEntries_trans.
  - intros y. rewrite tied_inOrder, !compareEntries_spec. unfold entryBefore. split.
    + intros [[H1 | [H1 T1]] [H2 | [H2 T2]]]; try lra. split; [done | lia].
    + intros [H T]. split; right; split; try lia; [done | by symmetry].
Qed.


(** ** Users do not interfere *)

Lemma ofUser_ofUser (u : string) (log : list AnswerRow) :
  ofUser u (ofUser u log) = ofUser u log.
Proof. unfold ofUser. apply list_filter_filter_l. auto. Qed.

Lemma Exists_sameKey_ofUser (a : AnswerRow) (log : list AnswerRow) :
  Exists (sameKey a) (ofUser (user_id a) log) <-> Exists (sameKey a) log.
Proof.
  rewrite !Exists_exists. split.
  - intros (b & [_ Hb]%list_elem_of_filter & Hab). eauto.
  - intros (b & Hb & Hab). exists b. split; [|done].
    apply list_elem_of_filter. split; [|done]. by destruct Hab.
Qed.

Lemma ofUser_firstRecords (u : string) (log : list AnswerRow) :
  ofUser u (firstRecords log) = firstRecords (ofUser u log).
Proof.
  induction log as [|a log IH] using rev_ind; [done|].
  rewrite firstRecords_snoc, !ofUser_app, IH.
  destruct (decide (user_id a = u)) as [<-|Hne].
  - assert (ofUser (user_id a) [a] = [a]) as Hone.
    { unfold ofUser. by rewrite filter_cons, filter_nil, decide_True. }
    rewrite Hone, firstRecords_snoc.
    destruct (decide (Exists (sameKey a) log)) as [Hdup|Hnew].
    + by rewrite decide_True by (by apply Exists_sameKey_ofUser).
    + rewrite decide_False by (by rewrite Exists_sameKey_ofUser). by rewrite Hone.
  - assert (ofUser u [a] = []) as Hnone.
    { unfold ofUser. by rewrite filter_cons, filter_nil, decide_False. }
    rewrite Hnone, app_nil_r. destruct (decide _); [|rewrite Hnone]; by rewrite app_nil_r.
Qed.

Lemma aggregate_first_rows (log : list AnswerRow) :
  (forall u a, firstRowOf u log = Some a -> is_Some (profiles a)) ->
  exists scores, aggregate log = Return scores.
Proof.
  induction log as [|a log IH] using rev_ind; intros Hfirst; [by exists []|].
  destruct IH as [acc Hacc].
  { intros u b Hb. apply (Hfirst u). rewrite firstRowOf_snoc, Hb. done. }
  rewrite aggregate_snoc, Hacc. cbn. apply countAnswer_returns.
  destruct (get acc (user_id a)) as [d|] eqn:Hget; [left; eauto|]. right.
  apply (Hfirst (user_id a)). rewrite firstRowOf_snoc.
  destruct (aggregate_agrees log acc Hacc) as [_ Hinv].
  specialize (Hinv (user_id a)). rewrite Hget in Hinv.
  unfold firstRowOf. rewrite Hinv. simpl. by rewrite decide_True.
Qed.

Lemma singleton_keys (keys : list string) (u : string) :
  NoDup keys -> keys <> [] -> (forall k, k ∈ keys -> k = u) -> keys = [u].
Proof.
  intros Hnodup Hne Hall. destruct keys as [|k [|k' keys]]; [done | |].
  - f_equal. apply Hall. set_solver.
  - exfalso. apply NoDup_cons in Hnodup as [Hk _]. apply Hk.
    rewrite (Hall k) by set_solver. rewrite (Hall k') by set_solver. set_solver.
Qed.

(** [X22] The entry of a user depends on the rows of that user only:
    aggregating the user's rows alone, in the same order, gives the same
    name, count, total time and set of questions. *)
Theorem user_data_depends_on_own_rows (log : list AnswerRow)
    (scores : list (string * UserData)) (u : string) (d : UserData) :
  aggregate log = Return scores ->
  get scores u = Some d ->
  aggregate (ofUser u log) = Return [(u, d)].
Proof.
  intros Hrun Hget.
  destruct (aggregate_names log scores u d Hrun Hget) as (a & p & Ha & Hp & Hname).
  destruct (aggregate_summary log scores u d Hrun Hget) as (Hc & Ht & Hq).
  destruct (aggregate_first_rows (ofUser u log)) as [own Hown].
  { intros u' b Hb. unfold firstRowOf in Hb.
    assert (u' = u) as ->.
    { apply head_Some_elem_of in Hb.
      apply list_elem_of_filter in Hb as [Hu' Hb].
      apply list_elem_of_filter in Hb as [Hu _]. congruence. }
    rewrite ofUser_ofUser in Hb. unfold firstRowOf in Ha. rewrite Ha in Hb.
    injection Hb as <-. eauto. }
  rewrite Hown. f_equal.
  assert (ofUser u log <> []) as Hne.
  { unfold firstRowOf in Ha. by destruct (ofUser u log). }
  assert (own.*1 = [u]) as Hkeys.
  { rewrite (aggregate_keys _ _ Hown). apply singleton_keys.
    - apply CompetitionMore.NoDup_uniq.
    - intros Hnil. destruct (ofUser u log) as [|b rest] eqn:Hrows; [done|].
      assert (user_id b ∈ uniq (user_id <$> b :: rest)) as Hin.
      { apply CompetitionMore.elem_of_uniq. set_solver. }
      rewrite Hnil in Hin. by apply elem_of_nil in Hin.
    - intros k Hk. apply (proj1 (CompetitionMore.elem_of_uniq _ _)) in Hk.
      apply list_elem_of_fmap in Hk as (b & -> & Hb).
      by apply list_elem_of_filter in Hb as [Hu _]. }
  destruct own as [|[k d'] [|kd own]]; try discriminate.
  injection Hkeys as ->. f_equal. f_equal.
  assert (get [(u, d')] u = Some d') as Hget' by (simpl; by rewrite String.eqb_refl).
  destruct (aggregate_names _ _ u d' Hown Hget') as (a' & p' & Ha' & Hp' & Hname').
  destruct (aggregate_summary _ _ u d' Hown Hget') as (Hc' & Ht' & Hq').
  unfold firstRowOf in Ha, Ha'. rewrite ofUser_ofUser, Ha in Ha'. injection Ha' as <-.
  rewrite Hp in Hp'. injection Hp' as <-.
  rewrite ofUser_firstRecords, ofUser_ofUser, <- ofUser_firstRecords in Hc', Ht'.
  unfold questionsOf in Hq'. rewrite ofUser_ofUser in Hq'. fold (questionsOf u log) in Hq'.
  destruct d, d'. simpl in *. congruence.
Qed.

Lemma user_data_depends_on_own_rows_witness :
  exists d, aggregate (ofUser "u1" fastThenSlow) = Return [("u1", d)] /\ totalTime d = 3.
Proof.
  eexists. split.
  - apply (user_data_depends_on_own_rows fastThenSlow _ "u1" _ eq_refl). reflexivity.
  - reflexivity.
Defined.

End NavbarMore.
